(** * serene: middleware chaining, request-scoped log attributes, the ECS
      log handler and the healthz endpoint

    A shallow embedding of the Go packages [httputils], [log],
    [ecshandler] and [healthz], together with the parts of the Go standard
    library they call ([context], [net/http] headers, [log/slog] and its
    JSON handler), and the properties stated about them.

    Conventions.  A Go slice is modelled by the sequence of its elements
    (a [list]); a Go [error] is an [option] over an error type, [None]
    being [nil]; effects on the outside world (the writer behind the JSON
    handler, the process-wide default logger, the response) are threaded
    explicitly through a world state. *)

From Stdlib Require Import ZArith Ascii String List DecimalString.
From stdpp Require Import base option list strings gmap.
Import ListNotations.

#[local] Set Warnings "-register-all".
#[local] Open Scope Z_scope.

(** ** Standard library: [time], [runtime], [strings] *)

Module time.
(** An instant; the zero [time.Time] is [0]. *)
Definition Time := Z.
Definition IsZero (t : Time) : bool := (t =? 0)%Z.
End time.

Module runtime.
Record Frame := { File : string; Line : Z; Function : string }.
End runtime.

Module strings.
Definition is_upper (c : ascii) : bool :=
  ((65 <=? nat_of_ascii c) && (nat_of_ascii c <=? 90))%nat.
Definition is_lower (c : ascii) : bool :=
  ((97 <=? nat_of_ascii c) && (nat_of_ascii c <=? 122))%nat.
Definition lower_byte (c : ascii) : ascii :=
  if is_upper c then ascii_of_nat (nat_of_ascii c + 32) else c.
Definition upper_byte (c : ascii) : ascii :=
  if is_lower c then ascii_of_nat (nat_of_ascii c - 32) else c.

(** [strings.ToLower] on ASCII text. *)
Fixpoint ToLower (s : string) : string :=
  match s with
  | EmptyString => EmptyString
  | String c s' => String (lower_byte c) (ToLower s')
  end.
End strings.

(** ** Standard library: [log/slog] *)

Module slog.
Definition Level := Z.
Definition LevelDebug : Level := -4.
Definition LevelInfo : Level := 0.
Definition LevelWarn : Level := 4.
Definition LevelError : Level := 8.

(** [fmt.Sprintf("%+d", val)]. *)
Definition signed_decimal (val : Z) : string :=
  (if val <? 0 then "-" else "+")
    +:+ NilZero.string_of_uint (N.to_uint (Z.abs_N val)).

(** [Level.String]. *)
Definition Level_String (l : Level) : string :=
  let str (base : string) (val : Z) :=
    if val =? 0 then base else base +:+ signed_decimal val in
  if l <? LevelInfo then str "DEBUG" (l - LevelDebug)
  else if l <? LevelWarn then str "INFO" (l - LevelInfo)
  else if l <? LevelError then str "WARN" (l - LevelWarn)
  else str "ERROR" (l - LevelError).

(** The kinds of [slog.Value] this code base builds.  [ZeroValue] is
    the zero [Value] (kind Any holding nil), [AnyLevel] is
    [slog.AnyValue] of a [Level], [group] is a value of kind Group. *)
Inductive Value :=
| ZeroValue
| StringValue (s : string)
| Int64Value (n : Z)
| TimeValue (t : time.Time)
| AnyLevel (l : Level)
| group (g : list (string * Value)).

(** [slog.Attr]: a key and a value. *)
Abbreviation Attr := (string * Value)%type.
Definition Key (a : Attr) : string := fst a.
Definition Val (a : Attr) : Value := snd a.

(** [slog.Attr{}] *)
Definition zeroAttr : Attr := ("", ZeroValue).

Definition String (key value : string) : Attr := (key, StringValue value).
Definition Int (key : string) (value : Z) : Attr := (key, Int64Value value).
Definition Time (key : string) (t : time.Time) : Attr := (key, TimeValue t).
Definition Any_level (key : string) (l : Level) : Attr := (key, AnyLevel l).
Definition isGroup (v : Value) : bool :=
  match v with group _ => true | _ => false end.

(** [Value.isEmptyGroup] *)
Definition isEmptyGroup (v : Value) : bool :=
  match v with group [] => true | _ => false end.

(** [slog.GroupValue]: a group of the given attributes, without those
    that are empty groups. *)
Definition GroupValue (as_ : list Attr) : Value :=
  group (filter (fun a => isEmptyGroup (Val a) = false) as_).

(** [slog.Group] *)
Definition Group (key : string) (args : list Attr) : Attr :=
  (key, GroupValue args).

(** [Attr.isEmpty]: the key is empty and the value is the zero value. *)
Definition isEmpty (a : Attr) : bool :=
  match a with
  | (EmptyString, ZeroValue) => true
  | _ => false
  end.

(** [slog.Record]. *)
Record Record_ := {
  Time_ : time.Time;
  Message : string;
  Level_ : Level;
  PC : Z;
  attrs : list Attr
}.

(** [Record.AddAttrs]: appends the given attributes, omitting empty
    groups. *)
Definition AddAttrs (r : Record_) (new : list Attr) : Record_ :=
  {| Time_ := Time_ r; Message := Message r; Level_ := Level_ r; PC := PC r;
     attrs := attrs r ++ filter (fun a => isEmptyGroup (Val a) = false) new |}.

(** *** The JSON handler *)

(** What the handler writes for one record: a JSON object, kept as the
    sequence of its members in the order written (keys may repeat). *)
Inductive JSON :=
| JNull
| JString (s : string)
| JNumber (n : Z)
| JTime (t : time.Time)
| JObject (members : list (string * JSON)).

Abbreviation Member := (string * JSON)%type.

(** [appendJSONValue] on a value that is not a group. *)
Definition jsonValue (v : Value) : JSON :=
  match v with
  | ZeroValue => JNull
  | StringValue s => JString s
  | Int64Value n => JNumber n
  | TimeValue t => JTime t
  | AnyLevel l => JString (Level_String l)
  | group _ => JObject []
  end.

Definition ReplaceAttrFn := list string -> Attr -> Attr.

Definition TimeKey := "time".
Definition LevelKey := "level".
Definition MessageKey := "msg".
Definition SourceKey := "source".

(** [HandlerOptions]; [AddSource] is never set by this code base and
    is left out. *)
Record HandlerOptions := {
  Level_opt : Level;
  ReplaceAttr : option ReplaceAttrFn
}.

(** [handleState.appendAttr]: the members one attribute contributes at
    the current nesting level.  [ReplaceAttr] is applied to every
    attribute that is not a group, and its result is rendered in turn
    (so recursion is not structural: it is bounded by [fuel], and [None]
    is "out of fuel").  Empty attributes are elided, a group with an
    empty key is inlined, and a group that contributes nothing is
    left out. *)
Fixpoint appendAttr (fuel : nat) (rep : option ReplaceAttrFn)
    (groups : list string) (a : Attr) : option (list Member) :=
  match fuel with
  | O => None
  | S fuel' =>
    let a :=
      match rep with
      | Some f => if isGroup (Val a) then a else f groups a
      | None => a
      end in
    if isEmpty a then Some []
    else match Val a with
         | group [] => Some []
         | group g =>
           let groups' :=
             if Strings.String.eqb (Key a) "" then groups
             else groups ++ [Key a] in
           ms ← mapM (appendAttr fuel' rep groups') g;
           let members := concat ms in
           if Strings.String.eqb (Key a) "" then Some members
           else match members with
                | [] => Some []
                | _ => Some [(Key a, JObject members)]
                end
         | v => Some [(Key a, jsonValue v)]
         end
  end.

(** The line [commonHandler.handle] builds for a record: the built-in
    fields (time unless zero, level, message), then the record's
    attributes. *)
Definition line (fuel : nat) (o : HandlerOptions) (r : Record_)
  : option (list Member) :=
  let rep := ReplaceAttr o in
  t ← (if time.IsZero (Time_ r) then Some []
       else match rep with
            | None => Some [(TimeKey, JTime (Time_ r))]
            | Some _ => appendAttr fuel rep [] (Time TimeKey (Time_ r))
            end);
  l ← (match rep with
       | None => Some [(LevelKey, JString (Level_String (Level_ r)))]
       | Some _ => appendAttr fuel rep [] (Any_level LevelKey (Level_ r))
       end);
  m ← (match rep with
       | None => Some [(MessageKey, JString (Message r))]
       | Some _ => appendAttr fuel rep [] (String MessageKey (Message r))
       end);
  rest ← mapM (appendAttr fuel rep []) (attrs r);
  Some (t ++ l ++ m ++ concat rest).

Section Handler.
(** The state of the outside world and the error values of [io.Writer]. *)
Context {World Err : Type}.

(** [io.Writer.Write] applied to one rendered line. *)
Definition Writer := list Member -> World -> World * option Err.

(** [slog.JSONHandler] *)
Record JSONHandler := {
  w : Writer;
  opts : HandlerOptions
}.

Definition NewJSONHandler (w : Writer) (o : HandlerOptions) : JSONHandler :=
  {| w := w; opts := o |}.

(** [JSONHandler.Handle]: build the line, write it, return the
    writer's error. *)
Definition JSONHandler_Handle (fuel : nat) (h : JSONHandler)
    (r : Record_) (σ : World) : option (World * option Err) :=
  ln ← line fuel (opts h) r;
  Some (w h ln σ).
End Handler.
Arguments Writer : clear implicits.
Arguments JSONHandler : clear implicits.
End slog.

(** ** Standard library: [context] *)

Module context.
(** Context keys are compared as interface values: by type and value.
    [slogAttributes] and [requestAttrsKey] are the two key types of
    package [log]; [foreignKey] stands for the keys of other packages. *)
Inductive key :=
| slogAttributes (s : string)
| requestAttrsKey
| foreignKey (n : nat).

#[global] Instance key_eq_dec : EqDecision key.
Proof. solve_decision. Defined.

(** The values stored under a key: a [[]slog.Attr], or a value of some
    other type. *)
Inductive any :=
| Attrs (l : list slog.Attr)
| foreign (n : nat).

Inductive Context :=
| Background
| WithValue (parent : Context) (k : key) (val : any).

(** [ctx.Value(k)]: the innermost binding of [k], [None] for nil. *)
Fixpoint Value (ctx : Context) (k : key) : option any :=
  match ctx with
  | Background => None
  | WithValue parent k' val =>
    if decide (k = k') then Some val else Value parent k
  end.
End context.

(** ** Standard library: [net/http] *)

Module http.
(** [textproto.validHeaderFieldByte]: the token characters of RFC 7230. *)
Definition validHeaderFieldByte (c : ascii) : bool :=
  let n := nat_of_ascii c in
  (((48 <=? n) && (n <=? 57)) || strings.is_upper c || strings.is_lower c
   || bool_decide (n ∈ [33; 35; 36; 37; 38; 39; 42; 43; 45; 46; 94; 95; 96;
                        124; 126]))%nat.

Fixpoint all_valid (s : string) : bool :=
  match s with
  | EmptyString => true
  | String c s' => validHeaderFieldByte c && all_valid s'
  end.

(** The rewriting loop of [canonicalMIMEHeaderKey]: upper case at the
    start and after a hyphen, lower case elsewhere. *)
Fixpoint canonical (upper : bool) (s : string) : string :=
  match s with
  | EmptyString => EmptyString
  | String c s' =>
    let c' := if upper then strings.upper_byte c else strings.lower_byte c in
    String c' (canonical (Ascii.eqb c' "-") s')
  end.

(** [textproto.CanonicalMIMEHeaderKey]: a key holding a byte that is not
    a token character is returned unchanged. *)
Definition CanonicalMIMEHeaderKey (s : string) : string :=
  if all_valid s then canonical true s else s.

(** [http.Header], a [map[string][]string]. *)
Abbreviation Header := (gmap string (list string)).

(** [Header.Get]: the first value under the canonical form of the key,
    the empty string when there is none. *)
Definition Header_Get (h : Header) (key : string) : string :=
  match h !! CanonicalMIMEHeaderKey key with
  | Some (v :: _) => v
  | _ => ""
  end.

Record Request := {
  Method : string;
  Header_ : Header;
  ctx : context.Context
}.

(** [Request.Context] and [Request.WithContext] *)
Definition Context (r : Request) : context.Context := ctx r.
Definition WithContext (r : Request) (c : context.Context) : Request :=
  {| Method := Method r; Header_ := Header_ r; ctx := c |}.

(** [http.Handler]: [ServeHTTP(w, r)] acting on the world. *)
Definition Handler (World ResponseWriter : Type) : Type :=
  ResponseWriter -> Request -> World -> World.
End http.

(** ** Package [httputils] *)

Module httputils.
Section Middlewares.
Context {Handler : Type}.

Definition Middleware := Handler -> Handler.

(** [ApplyMiddlewares]: [for _, h := range middlewares { base = h(base) }] *)
Fixpoint ApplyMiddlewares (base : Handler) (middlewares : list Middleware)
  : Handler :=
  match middlewares with
  | [] => base
  | h :: rest => ApplyMiddlewares (h base) rest
  end.
End Middlewares.
Arguments Middleware : clear implicits.
End httputils.

(** ** Package [log]: request-scoped attribute stores and the HTTP
       attribute middleware *)

Module log.
Import context.

Definition labelsAttributes : key := slogAttributes "labels".
Definition ecsAttributes : key := slogAttributes "ecs".

(** [LogExtract]: an attribute and whether it is present. *)
Definition LogExtract := http.Request -> slog.Attr * bool.

Definition ExtractHeaderRename (name rename : string) : LogExtract :=
  fun r =>
    let val := http.Header_Get (http.Header_ r) name in
    if negb (String.length val =? 0)%nat then (slog.String rename val, true)
    else (slog.zeroAttr, false).

(** [GetLabelAttrs]: the stored slice when the value under the key is a
    [[]slog.Attr], an empty slice otherwise. *)
Definition GetLabelAttrs (ctx : Context) : list slog.Attr :=
  match Value ctx labelsAttributes with
  | Some (Attrs loadedAttrs) => loadedAttrs
  | _ => []
  end.

Definition GetECSAttrs (ctx : Context) : list slog.Attr :=
  match Value ctx ecsAttributes with
  | Some (Attrs loadedAttrs) => loadedAttrs
  | _ => []
  end.

Definition AddLabelAttrs (ctx : Context) (attrs : list slog.Attr) : Context :=
  let attrs := attrs ++ GetLabelAttrs ctx in
  WithValue ctx labelsAttributes (Attrs attrs).

Definition addECSAttrs (ctx : Context) (attrs : list slog.Attr) : Context :=
  let attrs := attrs ++ GetECSAttrs ctx in
  WithValue ctx ecsAttributes (Attrs attrs).

Record middlewareOptions := {
  labelExtractors : list LogExtract;
  ecsExtractors : list LogExtract;
  logRequest : bool
}.

(** A [MiddlewareOption] mutates the options it is given. *)
Definition MiddlewareOption := middlewareOptions -> middlewareOptions.

Definition LogRequest : MiddlewareOption :=
  fun o => {| labelExtractors := labelExtractors o;
              ecsExtractors := ecsExtractors o;
              logRequest := true |}.

Definition WithDefaultInfo : MiddlewareOption :=
  fun o => {| labelExtractors := labelExtractors o;
              ecsExtractors :=
                ecsExtractors o
                ++ [fun r => (slog.String "http.request.method" (http.Method r),
                              true)];
              logRequest := logRequest o |}.

(** Modelled from the spec: the option that configures the set of ECS
    extractors.  The sources show the field it fills and
    [WithDefaultInfo], which appends to that field, but not this option. *)
Definition withECSExtractors (es : list LogExtract) : MiddlewareOption :=
  fun o => {| labelExtractors := labelExtractors o;
              ecsExtractors := ecsExtractors o ++ es;
              logRequest := logRequest o |}.

(** The extraction loop of the middleware:
    [for _, extract := range extractors { if attr, ok := extract(r); ok
    { acc = append(acc, attr) } }]. *)
Fixpoint extractLoop (extractors : list LogExtract) (r : http.Request)
    (acc : list slog.Attr) : list slog.Attr :=
  match extractors with
  | [] => acc
  | extract :: rest =>
    let '(attr, ok) := extract r in
    extractLoop rest r (if ok then acc ++ [attr] else acc)
  end.

(** The context the middleware builds for the wrapped handler. *)
Definition requestContext (options : middlewareOptions) (r : http.Request)
  : Context :=
  let ecsAttributes := extractLoop (ecsExtractors options) r [] in
  let ctx := addECSAttrs (http.Context r) ecsAttributes in
  let labelAttributes := extractLoop (labelExtractors options) r [] in
  AddLabelAttrs ctx labelAttributes.

(** [options := middlewareOptions{}; for _, o := range opts { o(&options) }] *)
Definition buildOptions (opts : list MiddlewareOption) : middlewareOptions :=
  fold_left (fun options o => o options) opts
    {| labelExtractors := []; ecsExtractors := []; logRequest := false |}.

Section Middleware.
Context {World ResponseWriter : Type}.

(** [slog.InfoContext] on the process-wide default logger. *)
Variable InfoContext : Context -> string -> World -> World.

Definition HTTPAttributesMiddleware (opts : list MiddlewareOption)
  : httputils.Middleware (http.Handler World ResponseWriter) :=
  let options := buildOptions opts in
  fun h => fun w r σ =>
    let ctx := requestContext options r in
    let σ := h w (http.WithContext r ctx) σ in
    if logRequest options then InfoContext ctx "HTTP Request handled" σ
    else σ.
End Middleware.

(** *** The earlier single store of package [log] *)

Definition ctxAttrs : key := requestAttrsKey.

Definition GetAttrsCtx (ctx : Context) : list slog.Attr :=
  match Value ctx ctxAttrs with
  | Some (Attrs loadedAttrs) => loadedAttrs
  | _ => []
  end.

Definition AddAttrsCtx (ctx : Context) (attrs : list slog.Attr) : Context :=
  let attrs := attrs ++ GetAttrsCtx ctx in
  WithValue ctx ctxAttrs (Attrs attrs).
(** [Header]: the attribute of a header value under a new name. *)
Definition Header (newName : string) : string -> slog.Attr :=
  fun value => slog.String newName value.

(** The loop of [RequestHeadersMiddleware] over the entries of the map, in
    the order the iteration visits them:
    [if val := r.Header.Get(header); len(val) != 0
    { logAttributes = append(logAttributes, toAttr(val)) }]. *)
Fixpoint headersLoop (entries : list (string * (string -> slog.Attr)))
    (r : http.Request) (logAttributes : list slog.Attr) : list slog.Attr :=
  match entries with
  | [] => logAttributes
  | (header, toAttr) :: rest =>
    let val := http.Header_Get (http.Header_ r) header in
    headersLoop rest r
      (if negb (String.length val =? 0)%nat then logAttributes ++ [toAttr val]
       else logAttributes)
  end.

Section RequestHeaders.
Context {World ResponseWriter : Type}.

(** The order in which [for header, toAttr := range headers] visits the
    map; Go leaves it unspecified, and it may change from one request to
    the next, so it is taken from the world. *)
Variable mapRange :
  World -> gmap string (string -> slog.Attr) ->
  list (string * (string -> slog.Attr)).

Definition RequestHeadersMiddleware
    (headers : gmap string (string -> slog.Attr))
  : httputils.Middleware (http.Handler World ResponseWriter) :=
  fun h => fun w r σ =>
    let logAttributes := headersLoop (mapRange σ headers) r [] in
    let ctx := AddAttrsCtx (http.Context r) logAttributes in
    h w (http.WithContext r ctx) σ.
End RequestHeaders.
End log.

(** ** The ECS handlers *)

(** The constants shared by the two handlers. *)
Module ecs.
Definition ecsVersion := "8.11.0".
Definition logger := "log/slog".

Definition ecsVersionKey := "ecs.version".
Definition timestampKey := "@timestamp".
Definition messageKey := "message".
Definition logLevelKey := "log.level".
Definition logLoggerKey := "log.logger".
Definition fileNameKey := "file.name".
Definition fileLineKey := "file.line".
Definition logOriginKey := "log.origin".
Definition functionKey := "function".
Definition labelsKey := "labels".

Record opts := {
  level : slog.Level;
  levelRenamer : slog.Level -> string;
  replaceAttr : option slog.ReplaceAttrFn
}.

(** An [Option] mutates the options it is given. *)
Definition Option := opts -> opts.

Definition defaultReplaceAttr : slog.ReplaceAttrFn :=
  fun groups a =>
    if bool_decide (slog.Key a ∈ ["time"; "msg"; "source"; "level"])
    then slog.zeroAttr
    else a.

Definition defaultOptions : opts :=
  {| level := slog.LevelDebug;
     levelRenamer := fun level => slog.Level_String level;
     replaceAttr := Some defaultReplaceAttr |}.

Definition WithLevel (l : slog.Level) : Option :=
  fun o => {| level := l; levelRenamer := levelRenamer o;
              replaceAttr := replaceAttr o |}.

Definition WithLevelRenamer (fn : slog.Level -> string) : Option :=
  fun o => {| level := level o; levelRenamer := fn;
              replaceAttr := replaceAttr o |}.

(** A nil function is [None]. *)
Definition WithReplaceAttr (fn : option slog.ReplaceAttrFn) : Option :=
  fun o => {| level := level o; levelRenamer := levelRenamer o;
              replaceAttr := fn |}.

Section Handler.
Context {World Err : Type}.

(** [runtime.CallersFrames([]uintptr{pc}).Next()] *)
Variable frameOf : Z -> runtime.Frame.

Record ECSHandler := {
  JSONHandler : slog.JSONHandler World Err;
  renamer : slog.Level -> string
}.

(** [NewECSHandler], writing to [stdout]. *)
Definition NewECSHandler (stdout : slog.Writer World Err)
    (options : list Option) : ECSHandler :=
  let o := fold_left (fun o op => op o) options defaultOptions in
  let h := slog.NewJSONHandler stdout
             {| slog.Level_opt := level o;
                slog.ReplaceAttr := replaceAttr o |} in
  {| JSONHandler := h; renamer := levelRenamer o |}.

(** The attributes both handlers put in front: timestamp, message,
    level, ECS version, logger, the labels group and the origin group. *)
Definition ecsAttrs (h : ECSHandler) (r : slog.Record_)
    (labels : list slog.Attr) : list slog.Attr :=
  let f := frameOf (slog.PC r) in
  [ slog.Time timestampKey (slog.Time_ r);
    slog.String messageKey (slog.Message r);
    slog.String logLevelKey (renamer h (slog.Level_ r));
    slog.String ecsVersionKey ecsVersion;
    slog.String logLoggerKey logger;
    (labelsKey, slog.GroupValue labels);
    slog.Group logOriginKey
      [ slog.String fileNameKey (runtime.File f);
        slog.Int fileLineKey (runtime.Line f);
        slog.String functionKey (runtime.Function f) ] ].
End Handler.
Arguments ECSHandler : clear implicits.
End ecs.

(** Package [log], [handler.go]: labels come from the single store. *)
Module loghandler.
Section Handler.
Context {World Err : Type}.
Variable frameOf : Z -> runtime.Frame.

(** The record [Handle] hands to the JSON handler. *)
Definition enrich (h : ecs.ECSHandler World Err) (ctx : context.Context)
    (r : slog.Record_) : slog.Record_ :=
  let attrs := log.GetAttrsCtx ctx in
  slog.AddAttrs r (ecs.ecsAttrs frameOf h r attrs).

Definition Handle (fuel : nat) (h : ecs.ECSHandler World Err)
    (ctx : context.Context) (r : slog.Record_) (σ : World)
  : option (World * option Err) :=
  slog.JSONHandler_Handle fuel (ecs.JSONHandler h) (enrich h ctx r) σ.
End Handler.
End loghandler.

(** Package [ecshandler]: labels and ECS attributes come from the two
    stores; the ECS attributes follow the fixed ones at top level. *)
Module ecshandler.
Section Handler.
Context {World Err : Type}.
Variable frameOf : Z -> runtime.Frame.

(** The record [Handle] hands to the JSON handler. *)
Definition enrich (h : ecs.ECSHandler World Err) (ctx : context.Context)
    (r : slog.Record_) : slog.Record_ :=
  let labels := log.GetLabelAttrs ctx in
  let plainAttributes := log.GetECSAttrs ctx in
  let allAttributes := ecs.ecsAttrs frameOf h r labels ++ plainAttributes in
  slog.AddAttrs r allAttributes.

Definition Handle (fuel : nat) (h : ecs.ECSHandler World Err)
    (ctx : context.Context) (r : slog.Record_) (σ : World)
  : option (World * option Err) :=
  slog.JSONHandler_Handle fuel (ecs.JSONHandler h) (enrich h ctx r) σ.
End Handler.
End ecshandler.

(** ** Package [healthz] *)

Module healthz.
Section Healthz.
(** [Dependency] is generated code; it is only passed through. *)
Context {World ResponseWriter Dependency : Type}.

Record Status := {
  Dependencies : list Dependency;
  Status_ : string
}.

(** A check runs against the world and reports a dependency and
    whether it is healthy. *)
Definition dependencyCheck := World -> (Dependency * bool) * World.

(** [json.NewEncoder(w).Encode(status)] *)
Variable Encode : ResponseWriter -> Status -> World -> World.

(** The loop over the checks, with its two accumulators. *)
Fixpoint checkLoop (checks : list dependencyCheck)
    (deps : list Dependency) (status : string) (σ : World)
  : list Dependency * string * World :=
  match checks with
  | [] => (deps, status, σ)
  | dCheck :: rest =>
    let '((d, ok), σ) := dCheck σ in
    let status := if negb ok then "KO" else status in
    checkLoop rest (deps ++ [d]) status σ
  end.

(** The handler registered under ["/status"]. *)
Definition statusHandler (checks : list dependencyCheck)
  : http.Handler World ResponseWriter :=
  fun w r σ =>
    let '(deps, status, σ) := checkLoop checks [] "OK" σ in
    Encode w {| Dependencies := deps; Status_ := status |} σ.

(** [HealthzHandler]: the mux maps patterns to handlers (registering a
    pattern twice, which panics in Go, is not modelled). *)
Definition HealthzHandler
    (h : gmap string (http.Handler World ResponseWriter))
    (checks : list dependencyCheck)
  : gmap string (http.Handler World ResponseWriter) :=
  <["/status" := statusHandler checks]> h.
End Healthz.
Arguments Status : clear implicits.
End healthz.

(** ** Definitions used to state the properties *)

Module props.
Import slog.

(** Nesting depth of the groups in a value. *)
Fixpoint vdepth (v : Value) : nat :=
  match v with
  | group g =>
    S ((fix go (l : list (string * Value)) : nat :=
          match l with
          | [] => O
          | (_, v') :: l' => Nat.max (vdepth v') (go l')
          end) g)
  | _ => O
  end.

Definition depth (a : Attr) : nat := vdepth (Val a).

Definition attrsDepth (l : list Attr) : nat :=
  foldr (fun a n => Nat.max (depth a) n) O l.

(** A [ReplaceAttr] function that never turns an attribute that is not
    a group into a group; the rendering of every record then ends. *)
Definition flat (rep : option ReplaceAttrFn) : Prop :=
  match rep with
  | None => True
  | Some f => forall groups a, isGroup (Val a) = false ->
                               isGroup (Val (f groups a)) = false
  end.

(** A [ReplaceAttr] function that leaves the top-level attribute [a]
    as it is. *)
Definition keeps (rep : option ReplaceAttrFn) (a : Attr) : Prop :=
  match rep with
  | None => True
  | Some f => f [] a = a
  end.

(** Further operations on a context: the stores' [Add] functions and
    [context.WithValue] under a key of another package. *)
Inductive ctxOp :=
| opAddLabelAttrs (attrs : list Attr)
| opAddECSAttrs (attrs : list Attr)
| opAddAttrsCtx (attrs : list Attr)
| opWithValue (n : nat) (v : context.any).

Definition applyOp (ctx : context.Context) (op : ctxOp) : context.Context :=
  match op with
  | opAddLabelAttrs attrs => log.AddLabelAttrs ctx attrs
  | opAddECSAttrs attrs => log.addECSAttrs ctx attrs
  | opAddAttrsCtx attrs => log.AddAttrsCtx ctx attrs
  | opWithValue n v => context.WithValue ctx (context.foreignKey n) v
  end.

Definition applyOps (ctx : context.Context) (ops : list ctxOp)
  : context.Context :=
  fold_left applyOp ops ctx.

(** What a run of the HTTP stack leaves in the world, for the
    properties about ordering: the names announced by middleware, the
    stores a handler saw, and the calls of [slog.InfoContext]. *)
Inductive Event :=
| Announced (name : string)
| Served (labels ecsAttrs : list Attr)
| Info (ctx : context.Context) (msg : string).

Definition Trace := list Event.

(** A middleware in the style of the documentation's [logger]: it
    announces itself, then calls the next handler. *)
Definition announce {RW : Type} (name : string)
  : httputils.Middleware (http.Handler Trace RW) :=
  fun next w r σ => next w r (σ ++ [Announced name]).

(** A base handler that records the stores readable from its request. *)
Definition served {RW : Type} : http.Handler Trace RW :=
  fun w r σ =>
    σ ++ [Served (log.GetLabelAttrs (http.Context r))
                 (log.GetECSAttrs (http.Context r))].

(** [slog.InfoContext] recorded in the trace. *)
Definition InfoContext (ctx : context.Context) (msg : string) (σ : Trace)
  : Trace :=
  σ ++ [Info ctx msg].

(** The results the checks return when run one after the other. *)
Fixpoint runChecks {World Dependency : Type}
    (checks : list (@healthz.dependencyCheck World Dependency)) (σ : World)
  : list (Dependency * bool) * World :=
  match checks with
  | [] => ([], σ)
  | dCheck :: rest =>
    let '(res, σ) := dCheck σ in
    let '(ress, σ) := runChecks rest σ in
    (res :: ress, σ)
  end.

(** The renamer of the handler's test:
    ["renamed_" + strings.ToLower(level.String())]. *)
Definition renamed (level : Level) : string :=
  "renamed_" +:+ strings.ToLower (Level_String level).
(** A [ReplaceAttr] function that leaves the attribute [a] as it is when
    it is met inside the groups [groups]. *)
Definition keepsUnder (rep : option ReplaceAttrFn) (groups : list string)
    (a : Attr) : Prop :=
  match rep with
  | None => True
  | Some f => f groups a = a
  end.

(** The attributes a sequence of operations adds to each of the three
    stores, most recent first. *)
Definition labelAdds (ops : list ctxOp) : list Attr :=
  concat (reverse (omap (fun op => match op with
                                   | opAddLabelAttrs attrs => Some attrs
                                   | _ => None
                                   end) ops)).

Definition ecsAdds (ops : list ctxOp) : list Attr :=
  concat (reverse (omap (fun op => match op with
                                   | opAddECSAttrs attrs => Some attrs
                                   | _ => None
                                   end) ops)).

Definition ctxAdds (ops : list ctxOp) : list Attr :=
  concat (reverse (omap (fun op => match op with
                                   | opAddAttrsCtx attrs => Some attrs
                                   | _ => None
                                   end) ops)).

(** The present outcome of an extractor, as an option. *)
Definition outcome (r : http.Request) (extract : log.LogExtract)
  : option Attr :=
  let '(attr, ok) := extract r in if ok then Some attr else None.

(** The attribute an entry of the header map yields for a request. *)
Definition headerOutcome (r : http.Request)
    (entry : string * (string -> Attr)) : option Attr :=
  let val := http.Header_Get (http.Header_ r) entry.1 in
  if negb (String.length val =? 0)%nat then Some (entry.2 val) else None.

(** The options of the attribute middleware that the sources define. *)
Inductive middlewareOptionName :=
| nameLogRequest
| nameWithDefaultInfo.

#[global] Instance middlewareOptionName_eq_dec : EqDecision middlewareOptionName.
Proof. solve_decision. Defined.

Definition middlewareOption (n : middlewareOptionName) : log.MiddlewareOption :=
  match n with
  | nameLogRequest => log.LogRequest
  | nameWithDefaultInfo => log.WithDefaultInfo
  end.

(** The options of the ECS handlers. *)
Inductive handlerOptionName :=
| nameWithLevel (l : Level)
| nameWithLevelRenamer (fn : Level -> string)
| nameWithReplaceAttr (fn : option ReplaceAttrFn).

Definition handlerOption (n : handlerOptionName) : ecs.Option :=
  match n with
  | nameWithLevel l => ecs.WithLevel l
  | nameWithLevelRenamer fn => ecs.WithLevelRenamer fn
  | nameWithReplaceAttr fn => ecs.WithReplaceAttr fn
  end.

(** The keys the default [replaceAttr] excludes. *)
Definition builtinKeys : list string := ["time"; "msg"; "source"; "level"].

Definition isObject (j : JSON) : bool :=
  match j with JObject _ => true | _ => false end.

(** No member of the object, at any depth, has one of the excluded keys
    unless its value is itself an object. *)
Fixpoint noBuiltin (j : JSON) : bool :=
  match j with
  | JObject ms =>
    (fix go (l : list (string * JSON)) : bool :=
       match l with
       | [] => true
       | (k, j') :: l' =>
         (negb (bool_decide (k ∈ builtinKeys)) || isObject j')
         && noBuiltin j' && go l'
       end) ms
  | _ => true
  end.
End props.

(** * Properties *)

Import props.

(** ** The middleware chain builder *)

Section ApplyMiddlewares.
Context {Handler : Type}.
Implicit Types (base : Handler) (ms : list (httputils.Middleware Handler)).

Lemma ApplyMiddlewares_app base ms1 ms2 :
  httputils.ApplyMiddlewares base (ms1 ++ ms2)
  = httputils.ApplyMiddlewares (httputils.ApplyMiddlewares base ms1) ms2.
Proof.
  revert base. induction ms1 as [|m ms1 IH]; intros base; simpl; [done|].
  apply IH.
Qed.

Lemma ApplyMiddlewares_snoc base ms m :
  httputils.ApplyMiddlewares base (ms ++ [m])
  = m (httputils.ApplyMiddlewares base ms).
Proof. by rewrite ApplyMiddlewares_app. Qed.

Lemma ApplyMiddlewares_foldr base ms :
  httputils.ApplyMiddlewares base ms
  = foldr (fun m h => m h) base (reverse ms).
Proof.
  induction ms as [|m ms IH] using rev_ind; [done|].
  by rewrite ApplyMiddlewares_snoc, reverse_snoc, IH.
Qed.
End ApplyMiddlewares.

Lemma announce_chain {RW : Type} (names : list string)
    (base : http.Handler Trace RW) w r σ :
  httputils.ApplyMiddlewares base (map announce names) w r σ
  = base w r (σ ++ map Announced (reverse names)).
Proof.
  revert w r σ. induction names as [|n names IH] using rev_ind; intros w r σ.
  - simpl. by rewrite app_nil_r.
  - rewrite map_app. simpl map at 2. rewrite ApplyMiddlewares_snoc.
    unfold announce at 1. rewrite IH, reverse_snoc. simpl.
    by rewrite <- app_assoc.
Qed.

(** C1.  [ApplyMiddlewares] starts from the base handler and wraps the
    current handler with each middleware in list order: an empty list
    gives the base handler back, a list extended by one more middleware
    gives that middleware applied to the handler built so far, so the last
    middleware listed is the outermost.  On a request the announcing
    middleware therefore run last-listed first, each once, before the
    base handler. *)
Theorem ApplyMiddlewares_wraps_in_list_order :
  forall (Handler : Type) (base : Handler)
         (middlewares : list (httputils.Middleware Handler)),
    httputils.ApplyMiddlewares base [] = base
    /\ (forall m, httputils.ApplyMiddlewares base (middlewares ++ [m])
                  = m (httputils.ApplyMiddlewares base middlewares))
    /\ httputils.ApplyMiddlewares base middlewares
       = foldr (fun m h => m h) base (reverse middlewares)
    /\ (forall (RW : Type) (b : http.Handler Trace RW) names w r σ,
           httputils.ApplyMiddlewares b (map announce names) w r σ
           = b w r (σ ++ map Announced (reverse names))).
Proof.
  intros Handler base middlewares. split; [done|]. split.
  { intros m. apply ApplyMiddlewares_snoc. }
  split; [apply ApplyMiddlewares_foldr|].
  intros. apply announce_chain.
Qed.

(** ** The attribute stores *)

Lemma GetLabelAttrs_AddLabelAttrs ctx attrs :
  log.GetLabelAttrs (log.AddLabelAttrs ctx attrs)
  = attrs ++ log.GetLabelAttrs ctx.
Proof.
  unfold log.AddLabelAttrs. unfold log.GetLabelAttrs at 1.
  cbn [context.Value]. by rewrite decide_True.
Qed.

Lemma GetECSAttrs_addECSAttrs ctx attrs :
  log.GetECSAttrs (log.addECSAttrs ctx attrs) = attrs ++ log.GetECSAttrs ctx.
Proof.
  unfold log.addECSAttrs. unfold log.GetECSAttrs at 1.
  cbn [context.Value]. by rewrite decide_True.
Qed.

Lemma GetLabelAttrs_WithValue_ne ctx k v :
  k <> log.labelsAttributes ->
  log.GetLabelAttrs (context.WithValue ctx k v) = log.GetLabelAttrs ctx.
Proof.
  intros Hk. unfold log.GetLabelAttrs. cbn [context.Value].
  by rewrite decide_False.
Qed.

Lemma GetECSAttrs_WithValue_ne ctx k v :
  k <> log.ecsAttributes ->
  log.GetECSAttrs (context.WithValue ctx k v) = log.GetECSAttrs ctx.
Proof.
  intros Hk. unfold log.GetECSAttrs. cbn [context.Value].
  by rewrite decide_False.
Qed.

Lemma GetLabelAttrs_addECSAttrs ctx attrs :
  log.GetLabelAttrs (log.addECSAttrs ctx attrs) = log.GetLabelAttrs ctx.
Proof. by apply GetLabelAttrs_WithValue_ne. Qed.

Lemma GetECSAttrs_AddLabelAttrs ctx attrs :
  log.GetECSAttrs (log.AddLabelAttrs ctx attrs) = log.GetECSAttrs ctx.
Proof. by apply GetECSAttrs_WithValue_ne. Qed.

Lemma GetLabelAttrs_applyOp ctx op :
  exists pre, log.GetLabelAttrs (applyOp ctx op) = pre ++ log.GetLabelAttrs ctx.
Proof.
  destruct op as [attrs|attrs|attrs|n v]; simpl.
  - exists attrs. apply GetLabelAttrs_AddLabelAttrs.
  - exists []. apply GetLabelAttrs_addECSAttrs.
  - exists []. by apply GetLabelAttrs_WithValue_ne.
  - exists []. by apply GetLabelAttrs_WithValue_ne.
Qed.

Lemma GetLabelAttrs_applyOps ops ctx :
  exists pre,
    log.GetLabelAttrs (applyOps ctx ops) = pre ++ log.GetLabelAttrs ctx.
Proof.
  revert ctx. induction ops as [|op ops IH]; intros ctx.
  - by exists [].
  - destruct (IH (applyOp ctx op)) as [pre Hpre].
    destruct (GetLabelAttrs_applyOp ctx op) as [pre' Hpre'].
    exists (pre ++ pre'). unfold applyOps in *. simpl.
    by rewrite Hpre, Hpre', app_assoc.
Qed.


(** ** Extractors and the HTTP attribute middleware *)

Lemma extractLoop_acc es r acc :
  log.extractLoop es r acc = acc ++ log.extractLoop es r [].
Proof.
  revert acc. induction es as [|e es IH]; intros acc; simpl.
  - by rewrite app_nil_r.
  - destruct (e r) as [attr [|]]; [|apply IH].
    rewrite (IH (acc ++ [attr])), (IH [attr]).
    by rewrite <- app_assoc.
Qed.

Lemma extractLoop_app es1 es2 r acc :
  log.extractLoop (es1 ++ es2) r acc
  = log.extractLoop es2 r (log.extractLoop es1 r acc).
Proof.
  revert acc. induction es1 as [|e es1 IH]; intros acc; simpl; [done|].
  destruct (e r) as [attr ok]. apply IH.
Qed.

Lemma extractLoop_absent es r acc :
  Forall (fun e : log.LogExtract => snd (e r) = false) es ->
  log.extractLoop es r acc = acc.
Proof.
  induction 1 as [|e es He _ IH]; simpl; [done|].
  destruct (e r) as [attr ok]. simpl in He. by subst ok.
Qed.

Lemma extractLoop_present es (e : log.LogExtract) r acc :
  e ∈ es -> snd (e r) = true -> fst (e r) ∈ log.extractLoop es r acc.
Proof.
  intros Hin Hok. apply list_elem_of_split in Hin as (es1 & es2 & ->).
  rewrite extractLoop_app. simpl. destruct (e r) as [attr ok].
  simpl in *. subst ok. rewrite extractLoop_acc.
  apply elem_of_app. left. apply elem_of_app. right. by apply list_elem_of_singleton.
Qed.

Lemma requestContext_labels options r :
  log.GetLabelAttrs (log.requestContext options r)
  = log.extractLoop (log.labelExtractors options) r []
    ++ log.GetLabelAttrs (http.Context r).
Proof.
  unfold log.requestContext.
  by rewrite GetLabelAttrs_AddLabelAttrs, GetLabelAttrs_addECSAttrs.
Qed.

Lemma requestContext_ecs options r :
  log.GetECSAttrs (log.requestContext options r)
  = log.extractLoop (log.ecsExtractors options) r []
    ++ log.GetECSAttrs (http.Context r).
Proof.
  unfold log.requestContext.
  by rewrite GetECSAttrs_AddLabelAttrs, GetECSAttrs_addECSAttrs.
Qed.

Lemma Header_Get_delete (h : http.Header) name :
  http.Header_Get (delete (http.CanonicalMIMEHeaderKey name) h) name = "".
Proof. unfold http.Header_Get. by rewrite lookup_delete_eq. Qed.

(** C10.  [ExtractHeaderRename] on a request whose named header has a value
    of length zero returns the absent outcome, which is what it returns on
    the same request without that header, and an extraction loop deposits
    the same attributes with this extractor in it as without it. *)
Theorem ExtractHeaderRename_empty_value_is_absent :
  forall (name rename : string) (r : http.Request),
    String.length (http.Header_Get (http.Header_ r) name) = 0%nat ->
    log.ExtractHeaderRename name rename r = (slog.zeroAttr, false)
    /\ log.ExtractHeaderRename name rename r
       = log.ExtractHeaderRename name rename
           {| http.Method := http.Method r;
              http.Header_ :=
                delete (http.CanonicalMIMEHeaderKey name) (http.Header_ r);
              http.ctx := http.ctx r |}
    /\ (forall pre post acc,
           log.extractLoop
             (pre ++ [log.ExtractHeaderRename name rename] ++ post) r acc
           = log.extractLoop (pre ++ post) r acc).
Proof.
  intros name rename r Hlen.
  assert (H1 : log.ExtractHeaderRename name rename r = (slog.zeroAttr, false)).
  { unfold log.ExtractHeaderRename. by rewrite Hlen. }
  split; [done|]. split.
  - rewrite H1. unfold log.ExtractHeaderRename. simpl.
    by rewrite Header_Get_delete.
  - intros pre post acc. rewrite !extractLoop_app. simpl. by rewrite H1.
Qed.

Lemma ExtractHeaderRename_empty_value_is_absent_witness :
  let r := {| http.Method := "GET";
              http.Header_ := {[ "X-Request-Id" := [""] ]};
              http.ctx := context.Background |} in
  String.length (http.Header_Get (http.Header_ r) "x-request-id") = 0%nat
  /\ log.ExtractHeaderRename "x-request-id" "request.id" r
     = (slog.zeroAttr, false).
Proof.
  intros r. split; [vm_compute; reflexivity|].
  apply (ExtractHeaderRename_empty_value_is_absent "x-request-id" "request.id" r).
  vm_compute; reflexivity.
Defined.

(** C5, as stated, fails: a middleware without extractors, nested inside
    one configured with [WithDefaultInfo], passes to its wrapped handler a
    context whose ECS store holds the attribute of the outer middleware. *)
Lemma zero_extractors_store_not_empty :
  let r := {| http.Method := "GET"; http.Header_ := ∅;
              http.ctx := context.Background |} in
  let outer := log.buildOptions [log.WithDefaultInfo] in
  let inner := log.buildOptions [] in
  let r1 := http.WithContext r (log.requestContext outer r) in
  httputils.ApplyMiddlewares served
    [log.HTTPAttributesMiddleware InfoContext [];
     log.HTTPAttributesMiddleware InfoContext [log.WithDefaultInfo]] tt r []
  = [Served [] [slog.String "http.request.method" "GET"]]
  /\ ~ (Forall (fun e : log.LogExtract => snd (e r1) = false)
               (log.ecsExtractors inner) ->
        Forall (fun e : log.LogExtract => snd (e r1) = false)
               (log.labelExtractors inner) ->
        log.GetLabelAttrs (log.requestContext inner r1) = []
        /\ log.GetECSAttrs (log.requestContext inner r1) = []).
Proof.
  intros r outer inner r1. split; [vm_compute; reflexivity|].
  intros H. destruct H as [_ H]; [constructor | constructor |].
  vm_compute in H. discriminate H.
Qed.

(** C5, amended.  When no extractor produces a present result, the labels
    store and the ECS store readable from the context passed to the wrapped
    handler are the stores readable from the request's incoming context;
    they are empty sequences when the incoming context holds none. *)
Theorem zero_extractors_stores_unchanged :
  forall (opts : list log.MiddlewareOption) (r : http.Request),
    Forall (fun e : log.LogExtract => snd (e r) = false)
           (log.ecsExtractors (log.buildOptions opts)) ->
    Forall (fun e : log.LogExtract => snd (e r) = false)
           (log.labelExtractors (log.buildOptions opts)) ->
    let ctx' := log.requestContext (log.buildOptions opts) r in
    (forall (World RW : Type) Info (h : http.Handler World RW) w σ,
        log.HTTPAttributesMiddleware Info opts h w r σ
        = (if log.logRequest (log.buildOptions opts)
           then Info ctx' "HTTP Request handled"
           else fun σ => σ) (h w (http.WithContext r ctx') σ))
    /\ log.GetLabelAttrs ctx' = log.GetLabelAttrs (http.Context r)
    /\ log.GetECSAttrs ctx' = log.GetECSAttrs (http.Context r)
    /\ (log.GetLabelAttrs (http.Context r) = [] -> log.GetLabelAttrs ctx' = [])
    /\ (log.GetECSAttrs (http.Context r) = [] -> log.GetECSAttrs ctx' = []).
Proof.
  intros opts r Hecs Hlabels ctx'.
  assert (Hl : log.GetLabelAttrs ctx' = log.GetLabelAttrs (http.Context r)).
  { unfold ctx'. by rewrite requestContext_labels, extractLoop_absent. }
  assert (He : log.GetECSAttrs ctx' = log.GetECSAttrs (http.Context r)).
  { unfold ctx'. by rewrite requestContext_ecs, extractLoop_absent. }
  split.
  { intros. unfold log.HTTPAttributesMiddleware. fold ctx'.
    by destruct (log.logRequest _). }
  split; [done|]. split; [done|]. split; congruence.
Qed.

Lemma zero_extractors_stores_unchanged_witness :
  let r := {| http.Method := "GET";
              http.Header_ := {[ "Accept" := ["*/*"] ]};
              http.ctx := context.Background |} in
  let opts := [log.withECSExtractors
                 [log.ExtractHeaderRename "Authorization" "auth.token"];
               log.LogRequest] in
  log.GetLabelAttrs (log.requestContext (log.buildOptions opts) r) = []
  /\ log.GetECSAttrs (log.requestContext (log.buildOptions opts) r) = [].
Proof.
  intros r opts.
  destruct (zero_extractors_stores_unchanged opts r) as (_ & _ & _ & Hl & He).
  - vm_compute. repeat constructor.
  - vm_compute. constructor.
  - split; [apply Hl | apply He]; reflexivity.
Defined.

(** C9.  One request through the attribute middleware: the wrapped handler
    is invoked on the world as the middleware found it, with a request
    whose context already holds the extracted attributes in front of those
    of the incoming context; the call of [slog.InfoContext] comes after
    everything the wrapped handler left in the world, once when the
    request-logging flag is set and not at all otherwise. *)
Theorem HTTPAttributesMiddleware_order :
  forall (RW : Type) (opts : list log.MiddlewareOption)
         (h : http.Handler Trace RW) (w : RW) (r : http.Request) (σ : Trace),
    let options := log.buildOptions opts in
    let ctx' := log.requestContext options r in
    log.HTTPAttributesMiddleware InfoContext opts h w r σ
    = h w (http.WithContext r ctx') σ
      ++ (if log.logRequest options then [Info ctx' "HTTP Request handled"]
          else [])
    /\ log.GetECSAttrs ctx'
       = log.extractLoop (log.ecsExtractors options) r []
         ++ log.GetECSAttrs (http.Context r)
    /\ log.GetLabelAttrs ctx'
       = log.extractLoop (log.labelExtractors options) r []
         ++ log.GetLabelAttrs (http.Context r)
    /\ log.HTTPAttributesMiddleware InfoContext opts served w r σ
       = σ ++ [Served (log.GetLabelAttrs ctx') (log.GetECSAttrs ctx')]
           ++ (if log.logRequest options
               then [Info ctx' "HTTP Request handled"] else [])
    /\ log.logRequest (log.buildOptions (opts ++ [log.LogRequest])) = true
    /\ log.logRequest (log.buildOptions []) = false.
Proof.
  intros RW opts h w r σ options ctx'.
  assert (Hgen : forall h' : http.Handler Trace RW,
             log.HTTPAttributesMiddleware InfoContext opts h' w r σ
             = h' w (http.WithContext r ctx') σ
               ++ (if log.logRequest options
                   then [Info ctx' "HTTP Request handled"] else [])).
  { intros h'. unfold log.HTTPAttributesMiddleware. fold options. fold ctx'.
    destruct (log.logRequest options); [done|]. by rewrite app_nil_r. }
  split; [apply Hgen|].
  split; [apply requestContext_ecs|].
  split; [apply requestContext_labels|].
  split.
  { rewrite Hgen. unfold served. simpl. by rewrite <- app_assoc. }
  split; [|done].
  unfold log.buildOptions. by rewrite fold_left_app.
Qed.

(** ** The healthz endpoint *)

Section Healthz.
Context {World ResponseWriter Dependency : Type}.
Variable Encode :
  ResponseWriter -> healthz.Status Dependency -> World -> World.

Lemma checkLoop_runChecks
    (checks : list (@healthz.dependencyCheck World Dependency))
    deps status σ :
  healthz.checkLoop checks deps status σ
  = (deps ++ map fst (runChecks checks σ).1,
     if forallb snd (runChecks checks σ).1 then status else "KO",
     (runChecks checks σ).2).
Proof.
  revert deps status σ.
  induction checks as [|c checks IH]; intros deps status σ; simpl.
  - by rewrite app_nil_r.
  - destruct (c σ) as [[d ok] σ1]. rewrite IH.
    destruct (runChecks checks σ1) as [ress σ2]. simpl.
    rewrite <- app_assoc. simpl.
    destruct ok; simpl; [done|]. by destruct (forallb snd ress).
Qed.

Lemma statusHandler_runChecks
    (checks : list (@healthz.dependencyCheck World Dependency)) w r σ :
  healthz.statusHandler Encode checks w r σ
  = Encode w
      {| healthz.Dependencies := map fst (runChecks checks σ).1;
         healthz.Status_ :=
           if forallb snd (runChecks checks σ).1 then "OK" else "KO" |}
      (runChecks checks σ).2.
Proof. unfold healthz.statusHandler. by rewrite checkLoop_runChecks. Qed.
End Healthz.

(** C8.  The handler registered under ["/status"] encodes one status for
    the list of checks: it lists the dependencies the checks returned, in
    order, and its status text is ["KO"] if at least one check returned
    false and ["OK"] if every check returned true, the empty list of
    checks included. *)
Theorem healthz_status_OK_or_KO :
  forall (World ResponseWriter Dependency : Type)
         (Encode : ResponseWriter -> healthz.Status Dependency ->
                   World -> World)
         (mux : gmap string (http.Handler World ResponseWriter))
         (checks : list (@healthz.dependencyCheck World Dependency))
         (w : ResponseWriter) (r : http.Request) (σ : World),
    let results := (runChecks checks σ).1 in
    exists (h : http.Handler World ResponseWriter)
           (status : healthz.Status Dependency),
      healthz.HealthzHandler Encode mux checks !! "/status" = Some h
      /\ h w r σ = Encode w status (runChecks checks σ).2
      /\ healthz.Dependencies status = map fst results
      /\ (Exists (fun res => snd res = false) results ->
          healthz.Status_ status = "KO")
      /\ (Forall (fun res => snd res = true) results ->
          healthz.Status_ status = "OK")
      /\ (checks = [] -> healthz.Status_ status = "OK").
Proof.
  intros World RW Dependency Encode mux checks w r σ results.
  eexists _, _. split.
  { unfold healthz.HealthzHandler. apply lookup_insert_eq. }
  split; [apply statusHandler_runChecks|]. simpl. fold results.
  split; [done|]. split; [|split].
  - intros Hex. apply Exists_exists in Hex as ([d ok] & Hin & Hok).
    simpl in Hok. subst ok.
    destruct (forallb snd results) eqn:Hall; [|done].
    rewrite forallb_forall in Hall.
    apply list_elem_of_In, Hall in Hin. discriminate Hin.
  - intros Hall.
    assert (forallb snd results = true) as ->; [|done].
    apply forallb_forall. intros res Hin.
    rewrite Forall_forall in Hall. by apply Hall, list_elem_of_In.
  - intros ->. reflexivity.
Qed.

Lemma healthz_status_OK_or_KO_witness :
  let Encode := fun (w : unit) (s : healthz.Status string)
                    (σ : list (healthz.Status string)) => σ ++ [s] in
  let checks : list (@healthz.dependencyCheck
                       (list (healthz.Status string)) string) :=
    [fun σ => (("db", true), σ); fun σ => (("cache", false), σ)] in
  let r := {| http.Method := "GET"; http.Header_ := ∅;
              http.ctx := context.Background |} in
  exists h,
    healthz.HealthzHandler Encode ∅ checks !! "/status" = Some h
    /\ h tt r []
       = [{| healthz.Dependencies := ["db"; "cache"];
             healthz.Status_ := "KO" |}].
Proof.
  intros Encode checks r.
  destruct (healthz_status_OK_or_KO _ _ _ Encode ∅ checks tt r [])
    as (h & [deps status] & Hh & Hrun & Hdeps & HKO & _).
  exists h. split; [exact Hh|]. rewrite Hrun.
  simpl in Hdeps, HKO. rewrite Hdeps, HKO; [reflexivity|].
  right. left. reflexivity.
Defined.

(** ** The JSON handler: rendering ends, and what it contains *)

Section Rendering.
Import slog.
Implicit Types (rep : option ReplaceAttrFn) (a : Attr) (fuel : nat).

Lemma vdepth_group_elem (g : list (string * Value)) a :
  a ∈ g -> (depth a < vdepth (group g))%nat.
Proof.
  intros Hin. unfold depth. simpl. apply Nat.lt_succ_r.
  induction Hin as [[k v] l | [k v] [k' v'] l _ IH]; simpl in *; lia.
Qed.

Lemma attrsDepth_elem (l : list Attr) a :
  a ∈ l -> (depth a <= attrsDepth l)%nat.
Proof.
  induction 1 as [a l | a b l _ IH]; unfold attrsDepth in *; simpl; lia.
Qed.

(** One unfolding of [appendAttr]. *)
Lemma appendAttr_S fuel rep groups a :
  appendAttr (S fuel) rep groups a
  = let a :=
      match rep with
      | Some f => if isGroup (Val a) then a else f groups a
      | None => a
      end in
    if isEmpty a then Some []
    else match Val a with
         | group [] => Some []
         | group g =>
           let groups' :=
             if Strings.String.eqb (Key a) "" then groups
             else groups ++ [Key a] in
           ms ← mapM (appendAttr fuel rep groups') g;
           let members := concat ms in
           if Strings.String.eqb (Key a) "" then Some members
           else match members with
                | [] => Some []
                | _ => Some [(Key a, JObject members)]
                end
         | v => Some [(Key a, jsonValue v)]
         end.
Proof. reflexivity. Qed.

Lemma replaced_flat rep groups a :
  flat rep ->
  let a' := match rep with
            | Some f => if isGroup (Val a) then a else f groups a
            | None => a
            end in
  a' = a \/ isGroup (Val a') = false.
Proof.
  intros Hflat. destruct rep as [f|]; simpl; [|by left].
  destruct (isGroup (Val a)) eqn:Hg; [by left|]. right. by apply Hflat.
Qed.

(** With a flat [ReplaceAttr], fuel above the nesting depth is enough. *)
Lemma appendAttr_total rep :
  flat rep ->
  forall fuel groups a,
    (depth a < fuel)%nat -> is_Some (appendAttr fuel rep groups a).
Proof.
  intros Hflat fuel.
  induction fuel as [|fuel IH]; intros groups a Hd; [lia|].
  rewrite appendAttr_S.
  pose proof (replaced_flat rep groups a Hflat) as Ha'.
  cbv zeta in *. revert Ha'.
  generalize (match rep with
              | Some f => if isGroup (Val a) then a else f groups a
              | None => a
              end).
  intros a' Ha'. destruct (isEmpty a'); [by eexists|].
  destruct (Val a') as [| | | | |[|p l]] eqn:Hv; try by eexists.
  destruct Ha' as [->|Hng]; [|simpl in Hng; discriminate Hng].
  match goal with
  | |- context [mapM ?f (p :: l)] =>
    assert (Hm : is_Some (mapM f (p :: l)))
  end.
  { apply mapM_is_Some_2, Forall_forall. intros x Hx. simpl. apply IH.
    pose proof (vdepth_group_elem (p :: l) x Hx) as Hlt.
    unfold depth in Hd. rewrite Hv in Hd. lia. }
  destruct Hm as [ms Hms]. rewrite Hms. simpl.
  destruct (Strings.String.eqb (Key a) ""); [by eexists|].
  destruct (concat ms); by eexists.
Qed.

(** More fuel does not change a result. *)
Lemma appendAttr_mono rep fuel :
  forall groups a ms,
    appendAttr fuel rep groups a = Some ms ->
    appendAttr (S fuel) rep groups a = Some ms.
Proof.
  induction fuel as [|fuel IH]; intros groups a ms H; [discriminate H|].
  rewrite appendAttr_S in H. rewrite appendAttr_S. cbv zeta in *.
  revert H.
  generalize (match rep with
              | Some f => if isGroup (Val a) then a else f groups a
              | None => a
              end).
  intros a'. destruct (isEmpty a'); [done|].
  destruct (Val a') as [| | | | |[|p l]]; try done.
  intros H. apply bind_Some in H as (mss & Hmss & H).
  match goal with
  | |- context [mapM ?f (p :: l)] =>
    assert (Hm : mapM f (p :: l) = Some mss)
  end.
  { apply mapM_Some. apply mapM_Some in Hmss.
    eapply Forall2_impl; [exact Hmss|]. intros x y Hxy. by apply IH. }
  rewrite Hm. exact H.
Qed.

Lemma appendAttr_mono_le rep fuel fuel' groups a ms :
  (fuel <= fuel')%nat ->
  appendAttr fuel rep groups a = Some ms ->
  appendAttr fuel' rep groups a = Some ms.
Proof.
  induction 1 as [|fuel' _ IH]; [done|].
  intros H. by apply appendAttr_mono, IH.
Qed.

Lemma mapM_appendAttr_mono_le rep fuel fuel' groups (l : list Attr) mss :
  (fuel <= fuel')%nat ->
  mapM (appendAttr fuel rep groups) l = Some mss ->
  mapM (appendAttr fuel' rep groups) l = Some mss.
Proof.
  intros Hle H. apply mapM_Some. apply mapM_Some in H.
  eapply Forall2_impl; [exact H|]. intros x y Hxy.
  by eapply appendAttr_mono_le.
Qed.

Lemma line_mono_le fuel fuel' o r ln :
  (fuel <= fuel')%nat -> line fuel o r = Some ln -> line fuel' o r = Some ln.
Proof.
  intros Hle. unfold line. intros H.
  apply bind_Some in H as (t & Ht & H).
  apply bind_Some in H as (l & Hl & H).
  apply bind_Some in H as (m & Hm & H).
  apply bind_Some in H as (rest & Hrest & H).
  assert (Ht' : (if time.IsZero (Time_ r) then Some []
                 else match ReplaceAttr o with
                      | None => Some [(TimeKey, JTime (Time_ r))]
                      | Some _ =>
                        appendAttr fuel' (ReplaceAttr o) []
                          (Time TimeKey (Time_ r))
                      end) = Some t).
  { destruct (time.IsZero (Time_ r)); [done|].
    destruct (ReplaceAttr o); [|done]. by eapply appendAttr_mono_le. }
  rewrite Ht'. simpl.
  assert (Hl' : match ReplaceAttr o with
                | None => Some [(LevelKey, JString (Level_String (Level_ r)))]
                | Some _ =>
                  appendAttr fuel' (ReplaceAttr o) []
                    (Any_level LevelKey (Level_ r))
                end = Some l).
  { destruct (ReplaceAttr o); [|done]. by eapply appendAttr_mono_le. }
  rewrite Hl'. simpl.
  assert (Hm' : match ReplaceAttr o with
                | None => Some [(MessageKey, JString (Message r))]
                | Some _ =>
                  appendAttr fuel' (ReplaceAttr o) []
                    (String MessageKey (Message r))
                end = Some m).
  { destruct (ReplaceAttr o); [|done]. by eapply appendAttr_mono_le. }
  rewrite Hm'. simpl.
  rewrite (mapM_appendAttr_mono_le _ _ _ _ _ _ Hle Hrest). simpl. exact H.
Qed.

Lemma line_total fuel o r :
  flat (ReplaceAttr o) ->
  (attrsDepth (attrs r) < fuel)%nat -> is_Some (line fuel o r).
Proof.
  intros Hflat Hd. unfold line.
  assert (Hb : forall a, depth a = O ->
                         is_Some (appendAttr fuel (ReplaceAttr o) [] a)).
  { intros a Ha. apply appendAttr_total; [done|]. lia. }
  assert (Ht : is_Some
            (if time.IsZero (Time_ r) then Some []
             else match ReplaceAttr o with
                  | None => Some [(TimeKey, JTime (Time_ r))]
                  | Some _ =>
                    appendAttr fuel (ReplaceAttr o) []
                      (Time TimeKey (Time_ r))
                  end)).
  { destruct (time.IsZero (Time_ r)); [by eexists|].
    destruct (ReplaceAttr o); [|by eexists]. by apply Hb. }
  destruct Ht as [t ->]. simpl.
  assert (Hl : is_Some
            (match ReplaceAttr o with
             | None => Some [(LevelKey, JString (Level_String (Level_ r)))]
             | Some _ =>
               appendAttr fuel (ReplaceAttr o) []
                 (Any_level LevelKey (Level_ r))
             end)).
  { destruct (ReplaceAttr o); [|by eexists]. by apply Hb. }
  destruct Hl as [l ->]. simpl.
  assert (Hm : is_Some
            (match ReplaceAttr o with
             | None => Some [(MessageKey, JString (Message r))]
             | Some _ =>
               appendAttr fuel (ReplaceAttr o) []
                 (String MessageKey (Message r))
             end)).
  { destruct (ReplaceAttr o); [|by eexists]. by apply Hb. }
  destruct Hm as [m ->]. simpl.
  assert (Hrest : is_Some (mapM (appendAttr fuel (ReplaceAttr o) []) (attrs r))).
  { apply mapM_is_Some_2, Forall_forall. intros a Ha. simpl.
    apply appendAttr_total; [done|].
    pose proof (attrsDepth_elem _ _ Ha). lia. }
  destruct Hrest as [rest ->]. simpl. by eexists.
Qed.

(** What an attribute of the record contributes is part of the line. *)
Lemma line_member fuel o r ln a ms :
  line fuel o r = Some ln ->
  a ∈ attrs r ->
  appendAttr fuel (ReplaceAttr o) [] a = Some ms ->
  forall m, m ∈ ms -> m ∈ ln.
Proof.
  unfold line. intros H Ha Hms m Hm.
  apply bind_Some in H as (t & _ & H).
  apply bind_Some in H as (l & _ & H).
  apply bind_Some in H as (msg & _ & H).
  apply bind_Some in H as (rest & Hrest & H).
  injection H as <-.
  apply mapM_Some in Hrest.
  apply list_elem_of_lookup in Ha as [i Hi].
  destruct (Forall2_lookup_l _ _ _ _ _ Hrest Hi) as (ms' & Hi' & Hms').
  rewrite Hms in Hms'. injection Hms' as <-.
  rewrite !elem_of_app. right. right. right.
  apply list_elem_of_In, in_concat. exists ms. split.
  - apply list_elem_of_In, list_elem_of_lookup. eauto.
  - by apply list_elem_of_In.
Qed.

(** A string attribute that [ReplaceAttr] keeps is written as it is. *)
Lemma appendAttr_String fuel rep k v :
  keeps rep (String k v) ->
  appendAttr (S fuel) rep [] (String k v) = Some [(k, JString v)].
Proof.
  intros Hk. rewrite appendAttr_S. cbv zeta.
  assert (match rep with
          | Some f => if isGroup (Val (String k v)) then String k v
                      else f [] (String k v)
          | None => String k v
          end = String k v) as ->.
  { destruct rep as [f|]; [|done]. exact Hk. }
  by destruct k.
Qed.
End Rendering.

(** ** The ECS handlers *)

Section Handlers.
Import slog.
Context {World Err : Type}.
Variable frameOf : Z -> runtime.Frame.
Implicit Types (jh : JSONHandler World Err) (h : ecs.ECSHandler World Err).

Lemma AddAttrs_elem r new a :
  a ∈ new -> isEmptyGroup (Val a) = false -> a ∈ attrs (AddAttrs r new).
Proof.
  intros Hin Hne. simpl. apply elem_of_app. right.
  by apply list_elem_of_filter.
Qed.

(** With a flat [ReplaceAttr] the JSON handler builds one line, with
    any fuel above the depth of the record, and returns what the writer
    returns for it. *)
Lemma JSONHandler_Handle_total jh r σ :
  flat (ReplaceAttr (opts jh)) ->
  exists ln, forall fuel,
    (S (attrsDepth (attrs r)) <= fuel)%nat ->
    line fuel (opts jh) r = Some ln
    /\ JSONHandler_Handle fuel jh r σ = Some (w jh ln σ).
Proof.
  intros Hflat.
  destruct (line_total (S (attrsDepth (attrs r))) (opts jh) r Hflat)
    as [ln Hln]; [lia|].
  exists ln. intros fuel Hle.
  assert (Hl : line fuel (opts jh) r = Some ln)
    by (by eapply line_mono_le).
  split; [done|]. unfold JSONHandler_Handle. by rewrite Hl.
Qed.

(** Whatever the fuel, a result of the JSON handler is the writer's. *)
Lemma JSONHandler_Handle_inv fuel jh r σ σ' err :
  JSONHandler_Handle fuel jh r σ = Some (σ', err) ->
  exists ln, line fuel (opts jh) r = Some ln /\ w jh ln σ = (σ', err).
Proof.
  unfold JSONHandler_Handle. intros H.
  apply bind_Some in H as (ln & Hln & H). exists ln. split; [done|].
  congruence.
Qed.

Lemma line_String fuel o r ln k v :
  keeps (ReplaceAttr o) (String k v) ->
  String k v ∈ attrs r ->
  line fuel o r = Some ln ->
  (k, JString v) ∈ ln.
Proof.
  intros Hk Hin Hln.
  apply (line_mono_le fuel (S fuel)) in Hln; [|lia].
  eapply line_member; [exact Hln | exact Hin | by apply appendAttr_String |].
  by apply list_elem_of_singleton.
Qed.

Lemma ecsAttrs_version h r labels :
  String "ecs.version" "8.11.0" ∈ ecs.ecsAttrs frameOf h r labels.
Proof. unfold ecs.ecsAttrs. do 3 right. left. Qed.

Lemma ecsAttrs_logger h r labels :
  String "log.logger" "log/slog" ∈ ecs.ecsAttrs frameOf h r labels.
Proof. unfold ecs.ecsAttrs. do 4 right. left. Qed.

Lemma ecsAttrs_level h r labels :
  String "log.level" (ecs.renamer h (Level_ r))
  ∈ ecs.ecsAttrs frameOf h r labels.
Proof. unfold ecs.ecsAttrs. do 2 right. left. Qed.

Lemma ecshandler_enrich_fixed h ctx r a :
  a ∈ ecs.ecsAttrs frameOf h r (log.GetLabelAttrs ctx) ->
  isEmptyGroup (Val a) = false ->
  a ∈ attrs (ecshandler.enrich frameOf h ctx r).
Proof.
  intros Hin Hne. unfold ecshandler.enrich. apply AddAttrs_elem; [|done].
  apply elem_of_app. by left.
Qed.

Lemma ecshandler_enrich_plain h ctx r a :
  a ∈ log.GetECSAttrs ctx ->
  isEmptyGroup (Val a) = false ->
  a ∈ attrs (ecshandler.enrich frameOf h ctx r).
Proof.
  intros Hin Hne. unfold ecshandler.enrich. apply AddAttrs_elem; [|done].
  apply elem_of_app. by right.
Qed.

Lemma loghandler_enrich_fixed h ctx r a :
  a ∈ ecs.ecsAttrs frameOf h r (log.GetAttrsCtx ctx) ->
  isEmptyGroup (Val a) = false ->
  a ∈ attrs (loghandler.enrich frameOf h ctx r).
Proof. intros Hin Hne. unfold loghandler.enrich. by apply AddAttrs_elem. Qed.

(** A string attribute of the record handed to the JSON handler, kept
    by [ReplaceAttr], is a top-level member of the line written. *)
Lemma sink_writes_String jh r σ (kvs : list (string * string)) :
  flat (ReplaceAttr (opts jh)) ->
  Forall (fun kv => keeps (ReplaceAttr (opts jh)) (String kv.1 kv.2)
                    /\ String kv.1 kv.2 ∈ attrs r) kvs ->
  exists fuel0 ln,
    Forall (fun kv => (kv.1, JString kv.2) ∈ ln) kvs
    /\ forall fuel, (fuel0 <= fuel)%nat ->
         JSONHandler_Handle fuel jh r σ = Some (w jh ln σ).
Proof.
  intros Hflat Hkvs.
  destruct (JSONHandler_Handle_total jh r σ Hflat) as [ln Hln].
  exists (S (attrsDepth (attrs r))), ln. split.
  - eapply Forall_impl; [exact Hkvs|]. intros [k v] [Hk Hin]. simpl in *.
    eapply line_String; [exact Hk | exact Hin |].
    by apply (Hln (S (attrsDepth (attrs r)))).
  - intros fuel Hle. by apply Hln.
Qed.
End Handlers.

Lemma defaultReplaceAttr_flat : flat (Some ecs.defaultReplaceAttr).
Proof.
  intros groups a Hg. unfold ecs.defaultReplaceAttr.
  by case_bool_decide.
Qed.








Lemma renamed_error : renamed slog.LevelError = "renamed_error".
Proof. reflexivity. Qed.



(** * Further properties of the code *)

(** ** The three stores under sequences of operations *)

Lemma GetAttrsCtx_AddAttrsCtx ctx attrs :
  log.GetAttrsCtx (log.AddAttrsCtx ctx attrs) = attrs ++ log.GetAttrsCtx ctx.
Proof.
  unfold log.AddAttrsCtx. unfold log.GetAttrsCtx at 1.
  cbn [context.Value]. by rewrite decide_True.
Qed.

Lemma GetAttrsCtx_WithValue_ne ctx k v :
  k <> log.ctxAttrs ->
  log.GetAttrsCtx (context.WithValue ctx k v) = log.GetAttrsCtx ctx.
Proof.
  intros Hk. unfold log.GetAttrsCtx. cbn [context.Value].
  by rewrite decide_False.
Qed.

Lemma stores_applyOp ctx op :
  log.GetLabelAttrs (applyOp ctx op) = labelAdds [op] ++ log.GetLabelAttrs ctx
  /\ log.GetECSAttrs (applyOp ctx op) = ecsAdds [op] ++ log.GetECSAttrs ctx
  /\ log.GetAttrsCtx (applyOp ctx op) = ctxAdds [op] ++ log.GetAttrsCtx ctx.
Proof.
  destruct op as [attrs|attrs|attrs|n v];
    unfold labelAdds, ecsAdds, ctxAdds; simpl; rewrite ?app_nil_r.
  - split; [apply GetLabelAttrs_AddLabelAttrs|].
    split; [by apply GetECSAttrs_WithValue_ne|].
    by apply GetAttrsCtx_WithValue_ne.
  - split; [by apply GetLabelAttrs_WithValue_ne|].
    split; [apply GetECSAttrs_addECSAttrs|].
    by apply GetAttrsCtx_WithValue_ne.
  - split; [by apply GetLabelAttrs_WithValue_ne|].
    split; [by apply GetECSAttrs_WithValue_ne|].
    apply GetAttrsCtx_AddAttrsCtx.
  - split; [by apply GetLabelAttrs_WithValue_ne|].
    split; [by apply GetECSAttrs_WithValue_ne|].
    by apply GetAttrsCtx_WithValue_ne.
Qed.

Lemma adds_snoc {A} (sel : ctxOp -> option (list A)) ops op :
  concat (reverse (omap sel (ops ++ [op])))
  = concat (reverse (omap sel [op])) ++ concat (reverse (omap sel ops)).
Proof. by rewrite omap_app, reverse_app, concat_app. Qed.


(** ** The extraction loop *)

Lemma extractLoop_omap es r acc :
  log.extractLoop es r acc = acc ++ omap (outcome r) es.
Proof.
  revert acc. induction es as [|e es IH]; intros acc; simpl.
  - by rewrite app_nil_r.
  - unfold outcome at 1. destruct (e r) as [attr [|]]; rewrite IH; [|done].
    by rewrite <- app_assoc.
Qed.

(** X2.  The extraction loop of the attribute middleware returns the
    attributes of the extractors whose outcome is present, in the order the
    extractors are listed, after the attributes collected so far; nothing
    is merged or dropped, so there are as many new attributes as present
    outcomes, at most one per extractor. *)
Theorem extractLoop_keeps_present_in_order :
  forall (extractors : list log.LogExtract) (r : http.Request)
         (acc : list slog.Attr),
    log.extractLoop extractors r acc = acc ++ omap (outcome r) extractors
    /\ length (log.extractLoop extractors r acc)
       = (length acc
          + length (filter (fun e : log.LogExtract => snd (e r) = true)
                           extractors))%nat
    /\ (length (log.extractLoop extractors r acc)
        <= length acc + length extractors)%nat.
Proof.
  intros es r acc. rewrite extractLoop_omap. split; [done|].
  assert (Hlen : length (omap (outcome r) es)
                 = length (filter (fun e : log.LogExtract => snd (e r) = true)
                                  es)).
  { induction es as [|e es IH]; [done|]. simpl.
    rewrite filter_cons. unfold outcome at 1.
    destruct (e r) as [attr [|]]; simpl; [by f_equal | exact IH]. }
  rewrite length_app, Hlen. split; [done|].
  pose proof (length_filter (fun e : log.LogExtract => snd (e r) = true) es).
  lia.
Qed.

(** ** Header names *)

Lemma lower_byte_idemp c :
  strings.lower_byte (strings.lower_byte c) = strings.lower_byte c.
Proof. destruct c as [[] [] [] [] [] [] [] []]; reflexivity. Qed.

Lemma upper_lower_byte c :
  strings.upper_byte (strings.lower_byte c) = strings.upper_byte c.
Proof. destruct c as [[] [] [] [] [] [] [] []]; reflexivity. Qed.

Lemma valid_lower_byte c :
  http.validHeaderFieldByte (strings.lower_byte c) = http.validHeaderFieldByte c.
Proof. destruct c as [[] [] [] [] [] [] [] []]; reflexivity. Qed.

Lemma all_valid_ToLower s :
  http.all_valid (strings.ToLower s) = http.all_valid s.
Proof.
  induction s as [|c s IH]; [done|]. simpl. by rewrite valid_lower_byte, IH.
Qed.

Lemma canonical_ToLower s upper :
  http.canonical upper (strings.ToLower s) = http.canonical upper s.
Proof.
  revert upper. induction s as [|c s IH]; intros upper; [done|]. simpl.
  destruct upper; rewrite ?upper_lower_byte, ?lower_byte_idemp, IH; done.
Qed.

Lemma CanonicalMIMEHeaderKey_ToLower s :
  http.all_valid s = true ->
  http.CanonicalMIMEHeaderKey s = http.canonical true (strings.ToLower s).
Proof.
  intros Hv. unfold http.CanonicalMIMEHeaderKey.
  by rewrite Hv, canonical_ToLower.
Qed.

(** X3.  [ExtractHeaderRename] does not depend on the case of the header
    name: two names made of token characters that are equal up to ASCII
    case give the same extractor outcome on every request. *)
Theorem ExtractHeaderRename_name_case_insensitive :
  forall (name name' rename : string) (r : http.Request),
    http.all_valid name = true ->
    strings.ToLower name = strings.ToLower name' ->
    log.ExtractHeaderRename name rename r
    = log.ExtractHeaderRename name' rename r.
Proof.
  intros name name' rename r Hv Heq.
  assert (Hv' : http.all_valid name' = true).
  { by rewrite <- all_valid_ToLower, <- Heq, all_valid_ToLower. }
  unfold log.ExtractHeaderRename, http.Header_Get.
  rewrite (CanonicalMIMEHeaderKey_ToLower name Hv).
  rewrite (CanonicalMIMEHeaderKey_ToLower name' Hv').
  by rewrite Heq.
Qed.

Lemma ExtractHeaderRename_name_case_insensitive_witness :
  let r := {| http.Method := "GET";
              http.Header_ := {[ "X-Request-Id" := ["r-17"] ]};
              http.ctx := context.Background |} in
  log.ExtractHeaderRename "x-request-ID" "request.id" r
  = log.ExtractHeaderRename "X-REQUEST-id" "request.id" r
  /\ log.ExtractHeaderRename "x-request-ID" "request.id" r
     = (slog.String "request.id" "r-17", true).
Proof.
  intros r. split; [|vm_compute; reflexivity].
  apply (ExtractHeaderRename_name_case_insensitive
           "x-request-ID" "X-REQUEST-id" "request.id" r); reflexivity.
Defined.

(** ** Attribute middleware: nesting and the options of the sources *)

(** X4.  Two attribute middlewares nested with [ApplyMiddlewares]: the
    base handler runs once, with the attributes extracted by the inner
    middleware in front of those of the outer one in front of those of the
    incoming context, in both stores; the inner middleware's summary call
    follows the handler and precedes the outer one's, and the outer
    summary is logged under the outer context, which does not hold the
    inner attributes. *)
Theorem nested_attribute_middlewares :
  forall (RW : Type) (outer inner : list log.MiddlewareOption)
         (h : http.Handler Trace RW) (w : RW) (r : http.Request) (σ : Trace),
    let oo := log.buildOptions outer in
    let oi := log.buildOptions inner in
    let ctx_o := log.requestContext oo r in
    let r_o := http.WithContext r ctx_o in
    let ctx_i := log.requestContext oi r_o in
    httputils.ApplyMiddlewares h
      [log.HTTPAttributesMiddleware InfoContext inner;
       log.HTTPAttributesMiddleware InfoContext outer] w r σ
    = h w (http.WithContext r ctx_i) σ
      ++ (if log.logRequest oi then [Info ctx_i "HTTP Request handled"]
          else [])
      ++ (if log.logRequest oo then [Info ctx_o "HTTP Request handled"]
          else [])
    /\ log.GetECSAttrs ctx_i
       = log.extractLoop (log.ecsExtractors oi) r_o []
         ++ log.extractLoop (log.ecsExtractors oo) r []
         ++ log.GetECSAttrs (http.Context r)
    /\ log.GetLabelAttrs ctx_i
       = log.extractLoop (log.labelExtractors oi) r_o []
         ++ log.extractLoop (log.labelExtractors oo) r []
         ++ log.GetLabelAttrs (http.Context r)
    /\ log.GetECSAttrs ctx_o
       = log.extractLoop (log.ecsExtractors oo) r []
         ++ log.GetECSAttrs (http.Context r).
Proof.
  intros RW outer inner h w r σ oo oi ctx_o r_o ctx_i.
  split; [|split; [|split]].
  - simpl. unfold log.HTTPAttributesMiddleware.
    fold oo oi ctx_o r_o ctx_i. change (http.WithContext r_o ctx_i)
      with (http.WithContext r ctx_i).
    unfold InfoContext.
    destruct (log.logRequest oi), (log.logRequest oo);
      rewrite ?app_nil_r, <- ?app_assoc; done.
  - unfold ctx_i. rewrite requestContext_ecs.
    by rewrite <- (requestContext_ecs oo r).
  - unfold ctx_i. rewrite requestContext_labels.
    by rewrite <- (requestContext_labels oo r).
  - apply requestContext_ecs.
Qed.

Lemma buildOptions_snoc opts o :
  log.buildOptions (opts ++ [o]) = o (log.buildOptions opts).
Proof. unfold log.buildOptions. by rewrite fold_left_app. Qed.

(** X5.  With the options the sources define, [LogRequest] and
    [WithDefaultInfo], in any number and order: no label extractor is
    configured, the request-logging flag is set exactly when [LogRequest]
    is among them, and the ECS store passed on gains one
    [http.request.method] attribute of the request's method for every
    [WithDefaultInfo] given (repetitions are not merged), while the label
    store passed on is the incoming one. *)
Theorem options_of_the_sources :
  forall (names : list middlewareOptionName) (r : http.Request),
    let o := log.buildOptions (map middlewareOption names) in
    let n := length (filter (fun x => x = nameWithDefaultInfo) names) in
    log.labelExtractors o = []
    /\ log.logRequest o = bool_decide (nameLogRequest ∈ names)
    /\ log.GetLabelAttrs (log.requestContext o r)
       = log.GetLabelAttrs (http.Context r)
    /\ log.GetECSAttrs (log.requestContext o r)
       = replicate n (slog.String "http.request.method" (http.Method r))
         ++ log.GetECSAttrs (http.Context r).
Proof.
  intros names r.
  assert (H : log.labelExtractors
                (log.buildOptions (map middlewareOption names)) = []
              /\ log.logRequest (log.buildOptions (map middlewareOption names))
                 = bool_decide (nameLogRequest ∈ names)
              /\ log.extractLoop
                   (log.ecsExtractors
                      (log.buildOptions (map middlewareOption names))) r []
                 = replicate
                     (length (filter (fun x => x = nameWithDefaultInfo) names))
                     (slog.String "http.request.method" (http.Method r))).
  { induction names as [|x names (IHl & IHf & IHe)] using rev_ind; [done|].
    rewrite map_app. simpl map. rewrite buildOptions_snoc.
    rewrite filter_app, length_app.
    destruct x; simpl.
    - split; [done|]. split.
      + symmetry. apply bool_decide_eq_true. set_solver.
      + rewrite IHe. by rewrite Nat.add_0_r.
    - split; [done|]. split.
      + rewrite IHf. apply bool_decide_ext.
        rewrite elem_of_app, list_elem_of_singleton.
        split; [by left | by intros [?|?]].
      + rewrite extractLoop_app, IHe. simpl.
        rewrite Nat.add_1_r. by rewrite replicate_S_end. }
  destruct H as (Hl & Hf & He). intros o n.
  split; [done|]. split; [done|]. split.
  - rewrite requestContext_labels. fold o in Hl. by rewrite Hl.
  - rewrite requestContext_ecs. fold o in He. by rewrite He.
Qed.

(** ** The options of the handlers *)

Lemma NewECSHandler_fold {World Err : Type} (stdout : slog.Writer World Err)
    options :
  let o := fold_left (fun o op => op o) options ecs.defaultOptions in
  ecs.NewECSHandler stdout options
  = {| ecs.JSONHandler :=
         slog.NewJSONHandler stdout
           {| slog.Level_opt := ecs.level o;
              slog.ReplaceAttr := ecs.replaceAttr o |};
       ecs.renamer := ecs.levelRenamer o |}.
Proof. reflexivity. Qed.

(** X6.  [NewECSHandler] applies its options in order: for the level, the
    level renamer and the attribute-replacement function, the last option
    of that kind decides and options of other kinds do not interfere;
    without one the handler has level Debug, the renamer [Level.String] and
    the default replacement function.  The writer is the given one. *)
Theorem NewECSHandler_last_option_wins :
  forall (World Err : Type) (stdout : slog.Writer World Err)
         (names : list handlerOptionName),
    let h := ecs.NewECSHandler stdout (map handlerOption names) in
    slog.Level_opt (slog.opts (ecs.JSONHandler h))
    = default slog.LevelDebug
        (last (omap (fun n => match n with
                              | nameWithLevel l => Some l
                              | _ => None
                              end) names))
    /\ ecs.renamer h
       = default slog.Level_String
           (last (omap (fun n => match n with
                                 | nameWithLevelRenamer fn => Some fn
                                 | _ => None
                                 end) names))
    /\ slog.ReplaceAttr (slog.opts (ecs.JSONHandler h))
       = default (Some ecs.defaultReplaceAttr)
           (last (omap (fun n => match n with
                                 | nameWithReplaceAttr fn => Some fn
                                 | _ => None
                                 end) names))
    /\ slog.w (ecs.JSONHandler h) = stdout.
Proof.
  intros World Err stdout names h. unfold h. rewrite NewECSHandler_fold.
  cbv zeta. simpl.
  induction names as [|x names (IHl & IHr & IHp & _)] using rev_ind; [done|].
  rewrite map_app, fold_left_app, !omap_app. simpl.
  destruct x; simpl; rewrite ?app_nil_r, ?last_snoc; simpl; done.
Qed.

(** ** What the handlers write: groups, excluded keys *)

Section Lines.
Import slog.
Implicit Types (rep : option ReplaceAttrFn) (a c : Attr) (fuel : nat).

(** An attribute that is not a group and not empty, kept by
    [ReplaceAttr] where it stands, is written as one member. *)
Lemma appendAttr_scalar fuel rep groups c :
  isGroup (Val c) = false ->
  isEmpty c = false ->
  keepsUnder rep groups c ->
  appendAttr (S fuel) rep groups c = Some [(Key c, jsonValue (Val c))].
Proof.
  intros Hg He Hk. rewrite appendAttr_S. cbv zeta.
  assert (match rep with
          | Some f => if isGroup (Val c) then c else f groups c
          | None => c
          end = c) as ->.
  { destruct rep as [f|]; [|done]. rewrite Hg. exact Hk. }
  rewrite He. destruct c as [k v]. simpl in *. by destruct v.
Qed.

Lemma line_attr fuel o r ln a :
  line fuel o r = Some ln ->
  a ∈ attrs r ->
  exists ms, appendAttr fuel (ReplaceAttr o) [] a = Some ms
             /\ forall m, m ∈ ms -> m ∈ ln.
Proof.
  unfold line. intros H Ha.
  apply bind_Some in H as (t & _ & H).
  apply bind_Some in H as (l & _ & H).
  apply bind_Some in H as (msg & _ & H).
  apply bind_Some in H as (rest & Hrest & H).
  injection H as <-.
  apply mapM_Some in Hrest.
  apply list_elem_of_lookup in Ha as [i Hi].
  destruct (Forall2_lookup_l _ _ _ _ _ Hrest Hi) as (ms & Hi' & Hms).
  exists ms. split; [done|]. intros m Hm.
  rewrite !elem_of_app. right. right. right.
  apply list_elem_of_In, in_concat. exists ms. split.
  - apply list_elem_of_In, list_elem_of_lookup. eauto.
  - by apply list_elem_of_In.
Qed.

(** A top-level group with a key is written as one object holding what
    its attributes contribute, unless they contribute nothing. *)
Lemma line_group fuel o r ln key g :
  line fuel o r = Some ln ->
  (key, group g) ∈ attrs r ->
  key <> "" ->
  exists ms,
    (forall c, c ∈ g -> isGroup (Val c) = false -> isEmpty c = false ->
               keepsUnder (ReplaceAttr o) [key] c ->
               (Key c, jsonValue (Val c)) ∈ ms)
    /\ (ms <> [] -> (key, JObject ms) ∈ ln).
Proof.
  intros Hln Hin Hkey.
  destruct (line_attr _ _ _ _ _ Hln Hin) as (msa & Hmsa & Hsub).
  destruct fuel as [|fuel]; [discriminate Hmsa|].
  rewrite appendAttr_S in Hmsa. cbv zeta in Hmsa.
  assert (match ReplaceAttr o with
          | Some f => if isGroup (Val (key, group g)) then (key, group g)
                      else f [] (key, group g)
          | None => (key, group g)
          end = (key, group g)) as Hrep by (by destruct (ReplaceAttr o)).
  rewrite Hrep in Hmsa. clear Hrep.
  assert (isEmpty (key, group g) = false) as He by (by destruct key).
  rewrite He in Hmsa. clear He. simpl in Hmsa.
  assert (Strings.String.eqb key "" = false) as Hneq
    by (by apply String.eqb_neq).
  rewrite Hneq in Hmsa.
  destruct g as [|p l].
  { exists []. split; [|done]. intros c Hc. by apply elem_of_nil in Hc. }
  apply bind_Some in Hmsa as (mss & Hmss & Hmsa).
  exists (concat mss). split.
  - intros c Hc Hg He Hk.
    apply mapM_Some in Hmss.
    apply list_elem_of_lookup in Hc as [i Hi].
    destruct (Forall2_lookup_l _ _ _ _ _ Hmss Hi) as (x & Hx & Hcx).
    destruct fuel as [|fuel]; [discriminate Hcx|].
    rewrite (appendAttr_scalar fuel _ _ c Hg He Hk) in Hcx.
    injection Hcx as <-.
    apply list_elem_of_In, in_concat. eexists. split.
    + apply list_elem_of_In, list_elem_of_lookup. eauto.
    + left. reflexivity.
  - intros Hne. apply Hsub.
    destruct (concat mss) eqn:Hc; [done|].
    injection Hmsa as <-. by apply list_elem_of_singleton.
Qed.

(** A property of every line the JSON handler can build for a record
    holds of what it returns, and with a flat [ReplaceAttr] it returns. *)
Lemma sink_property {World Err : Type} (P : list Member -> Prop)
    (jh : JSONHandler World Err) r σ :
  (forall fuel ln, line fuel (opts jh) r = Some ln -> P ln) ->
  (forall fuel σ' err,
      JSONHandler_Handle fuel jh r σ = Some (σ', err) ->
      exists ln, w jh ln σ = (σ', err) /\ P ln)
  /\ (flat (ReplaceAttr (opts jh)) ->
      exists fuel0 ln,
        P ln /\ forall fuel, (fuel0 <= fuel)%nat ->
                  JSONHandler_Handle fuel jh r σ = Some (w jh ln σ)).
Proof.
  intros HP. split.
  - intros fuel σ' err H.
    apply JSONHandler_Handle_inv in H as (ln & Hln & Hw).
    exists ln. split; [done|]. by eapply HP.
  - intros Hflat.
    destruct (JSONHandler_Handle_total jh r σ Hflat) as [ln Hln].
    exists (S (attrsDepth (attrs r))), ln. split.
    + eapply HP. by apply (Hln (S (attrsDepth (attrs r)))).
    + intros fuel Hle. by apply Hln.
Qed.

Lemma noBuiltin_cons k j l :
  noBuiltin (JObject ((k, j) :: l))
  = (negb (bool_decide (k ∈ builtinKeys)) || isObject j)
    && noBuiltin j && noBuiltin (JObject l).
Proof. reflexivity. Qed.

Lemma noBuiltin_app l1 l2 :
  noBuiltin (JObject (l1 ++ l2))
  = noBuiltin (JObject l1) && noBuiltin (JObject l2).
Proof.
  induction l1 as [|[k j] l1 IH]; [done|].
  rewrite <- app_comm_cons, !noBuiltin_cons, IH. by rewrite !andb_assoc.
Qed.

Lemma noBuiltin_concat (mss : list (list Member)) :
  Forall (fun ms => noBuiltin (JObject ms) = true) mss ->
  noBuiltin (JObject (concat mss)) = true.
Proof.
  induction 1 as [|ms mss Hms _ IH]; [done|].
  change (concat (ms :: mss)) with (ms ++ concat mss).
  by rewrite noBuiltin_app, Hms, IH.
Qed.

Lemma noBuiltin_elem ms k j :
  noBuiltin (JObject ms) = true ->
  (k, j) ∈ ms -> k ∈ builtinKeys -> isObject j = true.
Proof.
  intros Hc Hin Hk. induction ms as [|[k' j'] l IH].
  { by apply elem_of_nil in Hin. }
  rewrite noBuiltin_cons in Hc.
  apply andb_prop in Hc as [Hc Hl]. apply andb_prop in Hc as [Hc _].
  apply elem_of_cons in Hin as [Heq|Hin]; [|by apply IH].
  injection Heq as <- <-.
  rewrite (bool_decide_eq_true_2 _ Hk) in Hc. exact Hc.
Qed.

(** Under the default replacement function an attribute contributes no
    member with an excluded key, at any depth, unless it is an object. *)
Lemma appendAttr_default_noBuiltin fuel :
  forall groups a ms,
    appendAttr fuel (Some ecs.defaultReplaceAttr) groups a = Some ms ->
    noBuiltin (JObject ms) = true.
Proof.
  induction fuel as [|fuel IH]; intros groups [k v] ms H; [discriminate H|].
  rewrite appendAttr_S in H. cbv zeta in H.
  destruct (isGroup (Val (k, v))) eqn:Hg.
  - destruct v as [| | | | |g]; try discriminate Hg.
    assert (isEmpty (k, group g) = false) as He by (by destruct k).
    rewrite He in H. clear He. simpl in H.
    destruct g as [|p l]; [by injection H as <-|].
    apply bind_Some in H as (mss & Hmss & H).
    assert (Hc : noBuiltin (JObject (concat mss)) = true).
    { apply noBuiltin_concat. apply mapM_Some in Hmss.
      apply Forall_forall. intros x Hx.
      apply list_elem_of_lookup in Hx as [i Hi].
      destruct (Forall2_lookup_r _ _ _ _ _ Hmss Hi) as (c & _ & Hcx).
      by eapply IH. }
    destruct (Strings.String.eqb k ""); [by injection H as <-|].
    destruct (concat mss) eqn:E; injection H as <-; [done|].
    rewrite noBuiltin_cons, Hc. simpl isObject. by rewrite orb_true_r.
  - unfold ecs.defaultReplaceAttr in H. simpl Key in H.
    case_bool_decide as Hk.
    + simpl in H. by injection H as <-.
    + destruct (isEmpty (k, v)); [by injection H as <-|].
      simpl in H. destruct v; try discriminate Hg; injection H as <-;
        rewrite noBuiltin_cons; simpl;
        by rewrite (bool_decide_eq_false_2 _ Hk).
Qed.

Lemma line_default_noBuiltin fuel o r ln :
  ReplaceAttr o = Some ecs.defaultReplaceAttr ->
  line fuel o r = Some ln ->
  noBuiltin (JObject ln) = true.
Proof.
  intros Hrep. unfold line. rewrite Hrep. intros H.
  apply bind_Some in H as (t & Ht & H).
  apply bind_Some in H as (l & Hl & H).
  apply bind_Some in H as (m & Hm & H).
  apply bind_Some in H as (rest & Hrest & H).
  injection H as <-. rewrite !noBuiltin_app.
  assert (noBuiltin (JObject t) = true) as ->.
  { destruct (time.IsZero (Time_ r)); [by injection Ht as <-|].
    by eapply appendAttr_default_noBuiltin. }
  rewrite (appendAttr_default_noBuiltin _ _ _ _ Hl).
  rewrite (appendAttr_default_noBuiltin _ _ _ _ Hm). simpl.
  apply noBuiltin_concat. apply mapM_Some in Hrest.
  apply Forall_forall. intros x Hx.
  apply list_elem_of_lookup in Hx as [i Hi].
  destruct (Forall2_lookup_r _ _ _ _ _ Hrest Hi) as (c & _ & Hcx).
  by eapply appendAttr_default_noBuiltin.
Qed.
End Lines.

Section HandlerLines.
Import slog.
Context {World Err : Type}.
Variable frameOf : Z -> runtime.Frame.
Implicit Types (h : ecs.ECSHandler World Err).

Lemma ecsAttrs_origin h r labels :
  Group "log.origin"
    [ String "file.name" (runtime.File (frameOf (PC r)));
      Int "file.line" (runtime.Line (frameOf (PC r)));
      String "function" (runtime.Function (frameOf (PC r))) ]
  ∈ ecs.ecsAttrs frameOf h r labels.
Proof. unfold ecs.ecsAttrs. do 6 right. left. Qed.

Lemma ecsAttrs_labels h r labels :
  ("labels", GroupValue labels) ∈ ecs.ecsAttrs frameOf h r labels.
Proof. unfold ecs.ecsAttrs. do 5 right. left. Qed.

Lemma GroupValue_elem labels a :
  a ∈ labels -> isEmptyGroup (Val a) = false ->
  exists g, GroupValue labels = group g /\ a ∈ g
            /\ isEmptyGroup (group g) = false.
Proof.
  intros Hin Hne. eexists. split; [reflexivity|].
  assert (Ha : a ∈ filter (fun a => isEmptyGroup (Val a) = false) labels)
    by (by apply list_elem_of_filter).
  split; [done|].
  destruct (filter _ labels); [by apply elem_of_nil in Ha | done].
Qed.

(** The line property behind X8, for a record holding the labels group. *)
Lemma line_labels fuel o r labels ln k v :
  ("labels", GroupValue labels) ∈ attrs r ->
  String k v ∈ labels ->
  keepsUnder (ReplaceAttr o) ["labels"] (String k v) ->
  line fuel o r = Some ln ->
  exists ms, ("labels", JObject ms) ∈ ln /\ (k, JString v) ∈ ms.
Proof.
  intros Hin Hk Hkeep Hln.
  destruct (GroupValue_elem labels (String k v) Hk eq_refl)
    as (g & Hg & Hkg & _).
  rewrite Hg in Hin.
  destruct (line_group _ _ _ _ _ _ Hln Hin) as (ms & Hms & Hobj); [done|].
  assert (Hm : (k, JString v) ∈ ms).
  { apply (Hms (String k v)); try done. by destruct k. }
  exists ms. split; [|done]. apply Hobj. intros ->.
  by apply elem_of_nil in Hm.
Qed.
End HandlerLines.







Lemma ecshandler_enrich_attrs {World Err : Type}
    (frameOf : Z -> runtime.Frame) (h : ecs.ECSHandler World Err) ctx r :
  exists middle,
    slog.attrs (ecshandler.enrich frameOf h ctx r)
    = slog.attrs r
      ++ [ slog.Time "@timestamp" (slog.Time_ r);
           slog.String "message" (slog.Message r);
           slog.String "log.level" (ecs.renamer h (slog.Level_ r));
           slog.String "ecs.version" "8.11.0";
           slog.String "log.logger" "log/slog" ]
      ++ middle
      ++ filter (fun a => slog.isEmptyGroup (slog.Val a) = false)
                (log.GetECSAttrs ctx).
Proof.
  unfold ecshandler.enrich, slog.AddAttrs, ecs.ecsAttrs.
  cbn [slog.attrs]. rewrite filter_app. unfold slog.GroupValue.
  set (origin := slog.Group ecs.logOriginKey _).
  destruct (filter (fun a => slog.isEmptyGroup (slog.Val a) = false)
                   (log.GetLabelAttrs ctx)) as [|a l].
  - exists [origin]. reflexivity.
  - exists [("labels", slog.group (a :: l)); origin]. reflexivity.
Qed.


(** ** The header middleware of the earlier store *)

Lemma headersLoop_omap entries r acc :
  log.headersLoop entries r acc = acc ++ omap (headerOutcome r) entries.
Proof.
  revert acc. induction entries as [|[header toAttr] entries IH];
    intros acc; simpl.
  - by rewrite app_nil_r.
  - rewrite IH. unfold headerOutcome at 2. simpl.
    destruct (negb _); [|done]. by rewrite <- app_assoc.
Qed.

(** X11.  [RequestHeadersMiddleware] calls the wrapped handler once, on the
    world as it found it, with a context whose single store holds the
    attributes extracted from the request in front of those it held before.
    Whatever order the iteration over the header map takes, the extracted
    attributes are, up to order, one per entry of the map whose header has
    a value of non-zero length: the entry's function applied to that value.
    The label store and the ECS store are not touched. *)
Theorem RequestHeadersMiddleware_any_iteration_order :
  forall (World RW : Type)
         (mapRange : World -> gmap string (string -> slog.Attr) ->
                     list (string * (string -> slog.Attr)))
         (headers : gmap string (string -> slog.Attr))
         (h : http.Handler World RW) (w : RW) (r : http.Request) (σ : World),
    (forall σ m, mapRange σ m ≡ₚ map_to_list m) ->
    exists extracted,
      let ctx' := log.AddAttrsCtx (http.Context r) extracted in
      log.RequestHeadersMiddleware mapRange headers h w r σ
      = h w (http.WithContext r ctx') σ
      /\ extracted ≡ₚ omap (headerOutcome r) (map_to_list headers)
      /\ (forall a,
             a ∈ extracted <->
             exists header toAttr,
               headers !! header = Some toAttr
               /\ http.Header_Get (http.Header_ r) header <> ""
               /\ a = toAttr (http.Header_Get (http.Header_ r) header))
      /\ log.GetAttrsCtx ctx' = extracted ++ log.GetAttrsCtx (http.Context r)
      /\ log.GetLabelAttrs ctx' = log.GetLabelAttrs (http.Context r)
      /\ log.GetECSAttrs ctx' = log.GetECSAttrs (http.Context r).
Proof.
  intros World RW mapRange headers h w r σ Hperm.
  exists (log.headersLoop (mapRange σ headers) r []). cbv zeta.
  assert (Hp : log.headersLoop (mapRange σ headers) r []
               ≡ₚ omap (headerOutcome r) (map_to_list headers)).
  { rewrite headersLoop_omap. simpl. by rewrite (Hperm σ headers). }
  split; [reflexivity|]. split; [exact Hp|]. split; [|split; [|split]].
  - intros a. rewrite Hp, list_elem_of_omap. split.
    + intros ([header toAttr] & Hin & Hout).
      apply elem_of_map_to_list in Hin. exists header, toAttr.
      unfold headerOutcome in Hout. simpl in Hout.
      destruct (http.Header_Get (http.Header_ r) header) eqn:Hget;
        [discriminate Hout|].
      simpl in Hout. injection Hout as <-. by split.
    + intros (header & toAttr & Hin & Hne & ->).
      exists (header, toAttr). split; [by apply elem_of_map_to_list|].
      unfold headerOutcome. simpl.
      by destruct (http.Header_Get (http.Header_ r) header).
  - apply GetAttrsCtx_AddAttrsCtx.
  - by apply GetLabelAttrs_WithValue_ne.
  - by apply GetECSAttrs_WithValue_ne.
Qed.

Lemma RequestHeadersMiddleware_any_iteration_order_witness :
  let mapRange := fun (σ : Trace) (m : gmap string (string -> slog.Attr)) =>
                    map_to_list m in
  let headers : gmap string (string -> slog.Attr) :=
    {[ "Authorization" := log.Header "auth.token";
       "X-Request-Id" := log.Header "request.id" ]} in
  let r := {| http.Method := "GET";
              http.Header_ := {[ "Authorization" := ["abc"] ]};
              http.ctx := context.Background |} in
  exists extracted,
    log.RequestHeadersMiddleware mapRange headers served tt r []
    = served tt
        (http.WithContext r (log.AddAttrsCtx (http.Context r) extracted)) []
    /\ slog.String "auth.token" "abc" ∈ extracted.
Proof.
  intros mapRange headers r.
  destruct (RequestHeadersMiddleware_any_iteration_order
              Trace unit mapRange headers served tt r [])
    as (extracted & Hrun & _ & Hin & _); [done|].
  exists extracted. split; [exact Hrun|].
  apply Hin. exists "Authorization", (log.Header "auth.token").
  split; [reflexivity|]. split; [vm_compute; discriminate|].
  vm_compute. reflexivity.
Defined.

(** X12.  With a map of one entry, [name] to [Header rename], the header
    middleware stores in the single store what
    [ExtractHeaderRename name rename] extracts: the renamed attribute of
    the header's first value, or nothing when that value has length
    zero. *)
Theorem Header_entry_extracts_like_ExtractHeaderRename :
  forall (World RW : Type)
         (mapRange : World -> gmap string (string -> slog.Attr) ->
                     list (string * (string -> slog.Attr)))
         (name rename : string)
         (h : http.Handler World RW) (w : RW) (r : http.Request) (σ : World),
    (forall σ m, mapRange σ m ≡ₚ map_to_list m) ->
    log.RequestHeadersMiddleware mapRange {[ name := log.Header rename ]}
      h w r σ
    = h w (http.WithContext r
             (log.AddAttrsCtx (http.Context r)
                (log.extractLoop [log.ExtractHeaderRename name rename] r [])))
        σ.
Proof.
  intros World RW mapRange name rename h w r σ Hperm.
  unfold log.RequestHeadersMiddleware.
  pose proof (Hperm σ {[ name := log.Header rename ]}) as Hp.
  rewrite map_to_list_singleton in Hp.
  apply Permutation_singleton_r in Hp. rewrite Hp. simpl.
  unfold log.ExtractHeaderRename, log.Header.
  by destruct (negb _).
Qed.

Lemma Header_entry_extracts_like_ExtractHeaderRename_witness :
  let mapRange := fun (σ : Trace) (m : gmap string (string -> slog.Attr)) =>
                    map_to_list m in
  let r := {| http.Method := "GET";
              http.Header_ := {[ "Authorization" := ["abc"] ]};
              http.ctx := context.Background |} in
  log.RequestHeadersMiddleware mapRange
    {[ "authorization" := log.Header "auth.token" ]}
    (fun (w : unit) r' σ =>
       σ ++ [Served (log.GetAttrsCtx (http.Context r')) []]) tt r []
  = [Served [slog.String "auth.token" "abc"] []].
Proof.
  intros mapRange r.
  rewrite (Header_entry_extracts_like_ExtractHeaderRename
             Trace unit mapRange "authorization" "auth.token"); [|done].
  vm_compute. reflexivity.
Defined.

(** ** Composition of middleware chains *)

(** X13.  Applying one list of middleware and then another to the result
    is applying their concatenation; and a middleware that returns a
    handler without using the one it is given cuts off the base handler
    and every middleware listed before it, while those listed after it
    still wrap its handler. *)
Theorem ApplyMiddlewares_composes :
  forall (Handler : Type) (base : Handler)
         (ms1 ms2 : list (httputils.Middleware Handler)) (stop : Handler),
    httputils.ApplyMiddlewares (httputils.ApplyMiddlewares base ms1) ms2
    = httputils.ApplyMiddlewares base (ms1 ++ ms2)
    /\ httputils.ApplyMiddlewares base (ms1 ++ [fun _ => stop] ++ ms2)
       = httputils.ApplyMiddlewares stop ms2.
Proof.
  intros Handler base ms1 ms2 stop. split.
  - symmetry. apply ApplyMiddlewares_app.
  - by rewrite !ApplyMiddlewares_app.
Qed.

(** ** Order of the members written *)

Section LineOrder.
Import slog.

(** Two attributes of the record are written in the order they have in
    the record. *)
Lemma line_order fuel o r ln l1 a l2 b l3 ma mb :
  line fuel o r = Some ln ->
  attrs r = l1 ++ a :: l2 ++ b :: l3 ->
  appendAttr fuel (ReplaceAttr o) [] a = Some ma ->
  appendAttr fuel (ReplaceAttr o) [] b = Some mb ->
  exists p q s, ln = p ++ ma ++ q ++ mb ++ s.
Proof.
  unfold line. intros H Hattrs Ha Hb.
  apply bind_Some in H as (t & _ & H).
  apply bind_Some in H as (l & _ & H).
  apply bind_Some in H as (msg & _ & H).
  apply bind_Some in H as (rest & Hrest & H).
  injection H as <-.
  apply mapM_Some in Hrest. rewrite Hattrs in Hrest.
  apply Forall2_app_inv_l in Hrest as (r1 & rest1 & _ & Hrest & ->).
  apply Forall2_cons_inv_l in Hrest as (x & rest2 & Hx & Hrest & ->).
  apply Forall2_app_inv_l in Hrest as (r2 & rest3 & _ & Hrest & ->).
  apply Forall2_cons_inv_l in Hrest as (y & r3 & Hy & _ & ->).
  rewrite Ha in Hx. injection Hx as <-.
  rewrite Hb in Hy. injection Hy as <-.
  exists (t ++ l ++ msg ++ concat r1), (concat r2), (concat r3).
  rewrite !concat_app. simpl. rewrite !concat_app. simpl.
  by rewrite <- !app_assoc.
Qed.
End LineOrder.



(** ** A handler over a JSON handler without [ReplaceAttr] *)

Lemma line_None fuel o r ln :
  slog.ReplaceAttr o = None ->
  slog.line fuel o r = Some ln ->
  exists mss,
    mapM (slog.appendAttr fuel None []) (slog.attrs r) = Some mss
    /\ ln = (if time.IsZero (slog.Time_ r) then []
             else [("time", slog.JTime (slog.Time_ r))])
            ++ [("level", slog.JString (slog.Level_String (slog.Level_ r)));
                ("msg", slog.JString (slog.Message r))]
            ++ concat mss.
Proof.
  intros Hrep. unfold slog.line. rewrite Hrep. intros H.
  apply bind_Some in H as (t & Ht & H).
  apply bind_Some in H as (l & Hl & H).
  apply bind_Some in H as (m & Hm & H).
  apply bind_Some in H as (rest & Hrest & H).
  injection H as <-. injection Hl as <-. injection Hm as <-.
  exists rest. split; [done|].
  by destruct (time.IsZero (slog.Time_ r)); injection Ht as <-.
Qed.

Lemma mapM_member {A B} (f : A -> option (list B)) l mss a ms :
  mapM f l = Some mss -> a ∈ l -> f a = Some ms ->
  forall m, m ∈ ms -> m ∈ concat mss.
Proof.
  intros Hm Ha Hf m Hin. apply mapM_Some in Hm.
  apply list_elem_of_lookup in Ha as [i Hi].
  destruct (Forall2_lookup_l _ _ _ _ _ Hm Hi) as (ms' & Hi' & Hms').
  rewrite Hf in Hms'. injection Hms' as <-.
  apply list_elem_of_In, in_concat. exists ms. split.
  - apply list_elem_of_In, list_elem_of_lookup. eauto.
  - by apply list_elem_of_In.
Qed.


